(** * task-engine: the task registry and the dependency resolver

    A shallow embedding of [lib/index.js] (class [TaskEngine]) and the
    properties of its registration and execution methods: [addTask]
    (registration), [runTask] (a task with its dependencies) and
    [runTaskWithoutDependencies] (a task alone).

    - JavaScript values are an inductive type; the registry ([this.tasks],
      created with [Object.create(null)]) is a finite map keyed by strings,
      and an options object is a finite map keyed by the names of its
      properties, which are the strings other than ["__proto__"].
      [addTask] writes to the registry: it returns the engine it leaves.
      The one expression that writes to an options object,
      [Object.assign({}, options, d.options || {})], is also given on a
      store of objects ([depOptions_in]), where its target is shown to be a
      new object; elsewhere an options object stands for its properties.
    - A function value is a reference into a table of functions
      ([code : fref -> js_function]); a task function is described by its
      [name] property and by what one call of it does, given the options,
      the engine handle and the results array: it returns a plain value,
      returns a promise that settles, or throws.  Task functions that call
      back into the engine handle are outside this model.
    - A promise is described by the events that happen until it settles and
      by its settlement.  Execution is single threaded, so a chain of
      [then] callbacks is a sequence.  [runTask] recurses through the
      registry, which may be cyclic: the recursion is bounded by fuel.
    - The trace records when [runTask] is entered, when a task function is
      called (with the three arguments it receives) and when the promise
      returned by [runTask] settles. *)

From Stdlib Require Import ZArith.
From stdpp Require Import gmap strings list fin_maps pretty.

Set Warnings "-register-all".

(** ** JavaScript values *)

(** A reference to a function object. *)
Definition fref := nat.

Inductive value :=
| VUndefined
| VNull
| VBool (b : bool)
| VNum (n : Z)
| VStr (s : string)
| VArr (elems : list value)
| VObj (props : list (string * value))
| VFun (f : fref)
| VError (message : string)        (* new Error(message) *)
| VTypeError (message : string).   (* a TypeError raised by the runtime *)

(** The result of evaluating a call: it returns or it throws. *)
Inductive js_result (A : Type) :=
| Normal (a : A)
| Abrupt (e : value).
Arguments Normal {A} a.
Arguments Abrupt {A} e.

(** Statements in sequence: a throw ends the evaluation. *)
#[global] Instance js_result_bind : MBind js_result := λ A B f r,
  match r with
  | Normal a => f a
  | Abrupt e => Abrupt e
  end.

(** How a promise settles. *)
Inductive settlement (A : Type) :=
| Fulfilled (a : A)
| Rejected (e : value).
Arguments Fulfilled {A} a.
Arguments Rejected {A} e.

(** What one call of a task function does. *)
Inductive completion :=
| Returns (v : value)
| ReturnsPromise (s : settlement value)
| Throws (e : value).

(** ** Option objects

    An options object is a plain object: its own enumerable properties are
    data properties named by strings.  [Object.assign], the one expression
    that copies option objects, writes to its target with an assignment, and
    on the target [{}] the name [__proto__] is the accessor inherited from
    [Object.prototype] and not a property: an own property of that name in
    a source (as [JSON.parse] can make one) is not copied, and may change
    the prototype of the target.  Option objects with an own property of
    that name are outside this model: the keys of an options object are the
    strings other than ["__proto__"]. *)
Definition plain (s : string) : bool := negb (String.eqb s "__proto__").

Record option_key := Key { key_name : string; key_plain : Is_true (plain key_name) }.

#[global] Instance option_key_eq_dec : EqDecision option_key.
Proof.
  refine (λ k1 k2,
            match String.eqb (key_name k1) (key_name k2) as b
                  return String.eqb (key_name k1) (key_name k2) = b → Decision (k1 = k2)
            with
            | true => λ H, left _
            | false => λ H, right _
            end eq_refl).
  - abstract (destruct k1, k2; cbn in *; apply String.eqb_eq in H; subst;
              f_equal; apply proof_irrel).
  - abstract (intros ->; by rewrite String.eqb_refl in H).
Defined.

(** The proof that [b] holds, if it does. *)
Definition holds_proof (b : bool) : option (Is_true b) :=
  match b with
  | true => Some I
  | false => None
  end.

(** The key with the name [s], if there is one. *)
Definition to_key (s : string) : option option_key :=
  H ← holds_proof (plain s); Some (Key s H).

#[global] Program Instance option_key_countable : Countable option_key :=
  {| encode k := encode (key_name k); decode p := decode p ≫= to_key |}.
Next Obligation.
  intros [s H]. cbn. rewrite decode_encode. cbn. unfold to_key.
  replace (holds_proof (plain s)) with (Some H); [done|].
  clear. destruct (plain s); [by destruct H|done].
Qed.

Abbreviation options_object := (gmap option_key value).

(** The key with the name [s]. *)
Definition key (s : string) (H : Is_true (plain s)) : option_key := Key s H.

(** ** The registry *)

(** An element of a [dependencies] array: a task name, or
    [{ task, options }] where [options] may be missing. *)
Inductive dep_decl :=
| DepName (name : string)
| DepSpec (task : string) (options : option (options_object)).

(** The object [d] after [if (typeof d === 'string') d = { task: d }]. *)
Record dep_object := { dep_task : string; dep_options : option (options_object) }.

(** An entry [{ run: task, dependencies }] of [this.tasks]. *)
Record task_entry := { run : fref; dependencies : list dep_decl }.

Record TaskEngine := { tasks : gmap string task_entry }.

(** [new TaskEngine()] *)
Definition new_TaskEngine : TaskEngine := {| tasks := ∅ |}.

Record js_function := {
  fname : string;
  fbody : options_object → TaskEngine → list value → completion
}.

(** The second argument of [addTask]: missing, a name, or (overload
    [addTask(task, dependencies)]) an array of dependencies. *)
Inductive name_arg :=
| ArgAbsent
| ArgName (s : string)
| ArgDeps (ds : list dep_decl).

(** ** Traces and promises *)

Inductive event :=
| EvEnter (taskName : string) (options : options_object)
| EvInvoke (taskName : string) (options : options_object)
           (engine : TaskEngine) (results : list value)
| EvSettle (taskName : string) (s : settlement value).

(** The events up to the settlement, and the settlement; [None] when the
    fuel of the recursion ran out. *)
Definition Promise (A : Type) : Type := option (list event * settlement A).

Definition Promise_resolve {A} (a : A) : Promise A := Some ([], Fulfilled a).
Definition Promise_reject {A} (e : value) : Promise A := Some ([], Rejected e).

(** [p.then(f)]: [f] runs once [p] is fulfilled; a rejection passes through. *)
Definition then_ {A B} (p : Promise A) (f : A → Promise B) : Promise B :=
  match p with
  | None => None
  | Some (tr, Rejected e) => Some (tr, Rejected e)
  | Some (tr, Fulfilled a) =>
      match f a with
      | None => None
      | Some (tr', s) => Some (tr ++ tr', s)
      end
  end.

(** [p.catch(g)]: [g] runs once [p] is rejected. *)
Definition catch_ {A} (p : Promise A) (g : value → Promise A) : Promise A :=
  match p with
  | None => None
  | Some (tr, Fulfilled a) => Some (tr, Fulfilled a)
  | Some (tr, Rejected e) =>
      match g e with
      | None => None
      | Some (tr', s) => Some (tr ++ tr', s)
      end
  end.

(** What a callback that evaluates to [r] hands to [then] or [catch]: the
    promise it returns, or a rejection with what it threw. *)
Definition callback {A} (r : js_result (Promise A)) : Promise A :=
  match r with
  | Normal p => p
  | Abrupt e => Promise_reject e
  end.

(** A promise resolved with the outcome of a call ([then] and the executor
    of [new Promise] treat it alike): a returned promise is adopted, a throw
    rejects. *)
Definition settle (c : completion) : settlement value :=
  match c with
  | Returns v => Fulfilled v
  | ReturnsPromise s => s
  | Throws e => Rejected e
  end.

(** [results.concat(item)]: an array argument is spread. *)
Definition Array_concat (results : list value) (item : value) : list value :=
  match item with
  | VArr elems => results ++ elems
  | _ => results ++ [item]
  end.

(** [results.slice()] *)
Definition Array_slice (results : list value) : list value := results.

(** [Object.assign(target, ...sources)]: every property of every source is
    assigned to the target, the later source wins.  No key is
    ["__proto__"], so on a target made by [{}] every assignment makes or
    writes an own property. *)
Definition Object_assign (target : options_object)
    (sources : list (options_object)) : options_object :=
  fold_left (λ t s, s ∪ t) sources target.

(** [!!v] *)
Definition truthy (v : value) : bool :=
  match v with
  | VUndefined | VNull => false
  | VBool b => b
  | VNum n => negb (n =? 0)%Z
  | VStr s => negb (String.eqb s "")
  | _ => true
  end.

(** The key of [this.tasks[taskName]].  Where [addTask] writes, [taskName]
    is a string (the name given or the [name] of a function). *)
Definition property_key (v : value) : string :=
  match v with
  | VStr s => s
  | VUndefined => "undefined"
  | VNull => "null"
  | VBool true => "true"
  | VBool false => "false"
  | VNum n => pretty n
  | _ => "[object Object]"
  end.

Definition normalize (d : dep_decl) : dep_object :=
  match d with
  | DepName name => {| dep_task := name; dep_options := None |}
  | DepSpec task options => {| dep_task := task; dep_options := options |}
  end.

(** [taskName in this.tasks] *)
Definition canRunTask (this : TaskEngine) (taskName : string) : bool :=
  bool_decide (is_Some (tasks this !! taskName)).

(** The options of the dependency [d] of a task run under [options]:
    [Object.assign({}, options, d.options || {})]. *)
Definition depOptions (options : options_object) (d : dep_object) : options_object :=
  Object_assign ∅ [options; default ∅ (dep_options d)].

(** ** Option objects in a store

    [Object.assign] writes to its target.  Here are objects as locations of
    a store, and the expression [Object.assign({}, options, d.options || {})]
    of [runTask] on them: [{}] allocates an object, [Object.assign] copies
    the properties of each source into the target, in order, and returns
    the target.  [depOptions_in_spec] below relates it to [depOptions], which
    works on the properties alone and is what the rest of this file uses. *)

Definition loc := positive.

Abbreviation store := (gmap loc (options_object)).

(** [{}] *)
Definition new_object (h : store) : loc * store :=
  let l := fresh (dom h) in (l, <[l := ∅]> h).

(** [Object.assign(target, ...sources)] *)
Definition Object_assign_in (target : loc) (sources : list loc) (h : store) : store :=
  fold_left (λ h source,
               match h !! target, h !! source with
               | Some t, Some s => <[target := s ∪ t]> h
               | _, _ => h
               end) sources h.

(** [Object.assign({}, options, d.options || {})], where [d.options] is an
    object or is missing. *)
Definition depOptions_in (options : loc) (d_options : option loc) (h : store)
    : loc * store :=
  let '(target, h) := new_object h in
  let '(override, h) := match d_options with
                        | Some l => (l, h)
                        | None => new_object h
                        end in
  (target, Object_assign_in target [options; override] h).

(** The object at [l], if any, has the properties [o], if any. *)
Definition holds (h : store) (l : option loc) (o : option (options_object)) : Prop :=
  match l, o with
  | Some l, Some o => h !! l = Some o
  | None, None => True
  | _, _ => False
  end.

(** [this.reject(error)]: the class defines no [reject], so the callee is
    [undefined] and the call throws. *)
Definition this_reject {A} (this : TaskEngine) (error : value) : js_result A :=
  Abrupt (VTypeError "this.reject is not a function").

Section Engine.

Variable code : fref → js_function.

(** [task.name] *)
Definition get_name (task : value) : js_result value :=
  match task with
  | VUndefined =>
      Abrupt (VTypeError "Cannot read properties of undefined (reading 'name')")
  | VNull =>
      Abrupt (VTypeError "Cannot read properties of null (reading 'name')")
  | VFun f => Normal (VStr (fname (code f)))
  | VObj props =>
      Normal (default VUndefined (snd <$> find (λ kv, String.eqb (fst kv) "name") props))
  | VError _ => Normal (VStr "Error")
  | VTypeError _ => Normal (VStr "TypeError")
  | _ => Normal VUndefined
  end.

(** [addTask (task, taskName, dependencies = [])] *)
Definition addTask (this : TaskEngine) (task : value) (taskName : name_arg)
    (dependencies : list dep_decl) : js_result TaskEngine :=
  '(taskName, dependencies) ←
    match taskName with
    | ArgDeps ds => name ← get_name task; Normal (name, ds)
    | ArgName s => Normal (VStr s, dependencies)
    | ArgAbsent => Normal (VUndefined, dependencies)
    end;
  taskName ← (if negb (truthy taskName) then get_name task else Normal taskName);
  match task with
  | VFun f =>
      if truthy taskName then
        Normal {| tasks :=
          <[property_key taskName := {| run := f; dependencies := dependencies |}]>
            (tasks this) |}
      else
        Abrupt (VError ("Task function must be a named function or " +:+
                        "an explicit task name must be passed in"))
  | _ => Abrupt (VError "Task must be a function")
  end.

(** The name under which a function is registered: the name passed in, or
    the [name] of the function. *)
Definition registered_name (f : fref) (taskName : name_arg) : string :=
  match taskName with
  | ArgName s => if String.eqb s "" then fname (code f) else s
  | _ => fname (code f)
  end.

Definition registered_dependencies (taskName : name_arg) (dependencies : list dep_decl)
    : list dep_decl :=
  match taskName with
  | ArgDeps ds => ds
  | _ => dependencies
  end.

(** [task.run(options, this, results)], recorded in the trace. *)
Definition invoke (this : TaskEngine) (taskName : string) (task : task_entry)
    (options : options_object) (results : list value) : Promise value :=
  Some ([EvInvoke taskName options this results],
        settle (fbody (code (run task)) options this results)).

(** The promise returned by [runTask], with its entry and its settlement
    recorded in the trace. *)
Definition traced (taskName : string) (options : options_object)
    (p : Promise value) : Promise value :=
  match p with
  | None => None
  | Some (tr, s) => Some (EvEnter taskName options :: tr ++ [EvSettle taskName s], s)
  end.

(** [runTask (taskName, options = {})] *)
Fixpoint runTask (fuel : nat) (this : TaskEngine) (taskName : string)
    (options : options_object) : Promise value :=
  match fuel with
  | O => None
  | S fuel' =>
      traced taskName options
        match tasks this !! taskName with
        | Some task =>
            then_
              (fold_left
                 (λ p d,
                    let d := normalize d in
                    if canRunTask this (dep_task d) then
                      let depOptions :=
                        Object_assign ∅ [options; default ∅ (dep_options d)] in
                      then_ p (λ results,
                        then_ (runTask fuel' this (dep_task d) depOptions)
                              (λ result, Promise_resolve (Array_concat results result)))
                    else
                      then_ p (λ _,
                        callback (Abrupt
                          (VError ("Dependent task " +:+ dep_task d +:+ " not found")))))
                 (dependencies task) (Promise_resolve []))
              (λ results, invoke this taskName task options (Array_slice results))
        | None =>
            Promise_reject (VError ("Task " +:+ taskName +:+ " does not exist"))
        end
  end.

(** [runTaskWithoutDependencies (taskName, options = {})] *)
Definition runTaskWithoutDependencies (this : TaskEngine) (taskName : string)
    (options : options_object) : js_result (Promise value) :=
  match tasks this !! taskName with
  | Some task =>
      Normal (catch_ (invoke this taskName task options [])
                     (λ error, callback (this_reject this error)))
  | None =>
      this_reject this (VError ("Task " +:+ taskName +:+ " does not exist"))
  end.

(** The callback that [runTask] passes to [reduce], with the recursive call
    as a parameter. *)
Definition reduce_step (rec : string → options_object → Promise value)
    (this : TaskEngine) (options : options_object)
    (p : Promise (list value)) (d : dep_decl) : Promise (list value) :=
  let d := normalize d in
  if canRunTask this (dep_task d) then
    let depOptions := depOptions options d in
    then_ p (λ results,
      then_ (rec (dep_task d) depOptions)
            (λ result, Promise_resolve (Array_concat results result)))
  else
    then_ p (λ _,
      callback (Abrupt (VError ("Dependent task " +:+ dep_task d +:+ " not found")))).

(** The dependency [d] of a task run under [options] resolves: its own
    [runTask], under the options computed for it, is fulfilled with
    [out.2] after the events [out.1]. *)
Definition resolves_to (fuel : nat) (this : TaskEngine) (options : options_object)
    (d : dep_decl) (out : list event * value) : Prop :=
  runTask fuel this (dep_task (normalize d)) (depOptions options (normalize d))
  = Some (out.1, Fulfilled out.2).

(** How a dependency that is reached can fail: its own [runTask] is
    rejected, or it is not registered. *)
Definition fails_with (n : nat) (this : TaskEngine) (options : options_object)
    (d : dep_decl) (trd : list event) (e : value) : Prop :=
  let name := dep_task (normalize d) in
  (canRunTask this name = true ∧
   runTask n this name (depOptions options (normalize d)) = Some (trd, Rejected e)) ∨
  (canRunTask this name = false ∧ trd = [] ∧
   e = VError ("Dependent task " +:+ name +:+ " not found")).

End Engine.

(** ** Observations on traces and errors *)

(** The calls of the function of task [taskName] in a trace, and their
    number. *)
Definition is_invoke_of (taskName : string) (ev : event) : bool :=
  match ev with
  | EvInvoke n _ _ _ => String.eqb n taskName
  | _ => false
  end.

Definition invocations (taskName : string) (tr : list event) : nat :=
  length (List.filter (is_invoke_of taskName) tr).

(** An error carries a name when its message contains it. *)
Definition carries (e : value) (name : string) : Prop :=
  match e with
  | VError message | VTypeError message => is_Some (String.index 0 name message)
  | _ => False
  end.

(** The two errors that [addTask] itself throws. *)
Definition ConfigurationError (e : value) : Prop :=
  e = VError "Task must be a function" ∨
  e = VError ("Task function must be a named function or " +:+
              "an explicit task name must be passed in").

(** ** Sample engines

    Task functions and registries used to run the definitions on concrete
    inputs. *)

Definition sample_code (f : fref) : js_function :=
  match f with
  | 0 => {| fname := "taskA"; fbody := λ _ _ _, Returns VUndefined |}
  | 1 => {| fname := "taskB"; fbody := λ _ _ _, Returns (VStr "B") |}
  | 2 => {| fname := "taskC"; fbody := λ _ _ _, ReturnsPromise (Fulfilled (VStr "C")) |}
  | 3 => {| fname := "taskD"; fbody := λ _ _ _, Returns (VStr "D") |}
  | 4 => {| fname := "list"; fbody := λ _ _ _, Returns (VArr [VNum 1; VNum 2]) |}
  | 5 => {| fname := "boom"; fbody := λ _ _ _, Throws (VError "Nope") |}
  | 6 => {| fname := "late"; fbody := λ _ _ _, ReturnsPromise (Rejected (VError "Nope")) |}
  | _ => {| fname := ""; fbody := λ _ _ _, Returns VUndefined |}
  end.

Definition hi : options_object := {[ key "message" I := VStr "hi" ]}.
Definition age34 : options_object := {[ key "age" I := VNum 34 ]}.
Definition davey : options_object := {[ key "name" I := VStr "Davey" ]}.

Definition engine_of (l : list (string * task_entry)) : TaskEngine :=
  {| tasks := list_to_map l |}.

(** The engine of the test "should run a task's dependent tasks". *)
Definition sample_engine : TaskEngine :=
  engine_of
    [ ("taskA", {| run := 0; dependencies :=
                     [DepSpec "taskB" (Some age34); DepSpec "taskC" (Some davey)] |});
      ("taskB", {| run := 1; dependencies := [] |});
      ("taskC", {| run := 2; dependencies := [DepName "taskD"] |});
      ("taskD", {| run := 3; dependencies := [] |}) ].

(** A task whose only dependency returns an array. *)
Definition spread_engine : TaskEngine :=
  engine_of
    [ ("A", {| run := 0; dependencies := [DepName "L"] |});
      ("L", {| run := 4; dependencies := [] |}) ].

(** [A] depends on [B] and [C], both without dependencies; [B] returns an
    array. *)
Definition ordered_engine : TaskEngine :=
  engine_of
    [ ("A", {| run := 0; dependencies := [DepName "B"; DepName "C"] |});
      ("B", {| run := 4; dependencies := [] |});
      ("C", {| run := 2; dependencies := [] |}) ].

(** Tasks that fail: [boom] throws, [late] returns a promise that is
    rejected; [A] depends on [boom] and then on [taskC]; [release] depends on
    [boom] and then on [lint], which is not registered. *)
Definition failing_engine : TaskEngine :=
  engine_of
    [ ("boom", {| run := 5; dependencies := [] |});
      ("late", {| run := 6; dependencies := [] |});
      ("taskC", {| run := 2; dependencies := [] |});
      ("A", {| run := 0; dependencies := [DepName "boom"; DepName "taskC"] |});
      ("release", {| run := 0; dependencies := [DepName "boom"; DepName "lint"] |}) ].

(** [build] depends on [lint], which is not registered; [deploy] depends on
    [taskB], then on [lint], then on [taskC]. *)
Definition build_engine : TaskEngine :=
  engine_of
    [ ("build", {| run := 0; dependencies := [DepName "lint"] |});
      ("deploy", {| run := 0; dependencies := [DepName "taskB"; DepName "lint"; DepName "taskC"] |});
      ("taskB", {| run := 1; dependencies := [] |});
      ("taskC", {| run := 2; dependencies := [] |}) ].

(** The diamond: [A] depends on [B] and [C], which both depend on [D]. *)
Definition diamond (d : fref) : TaskEngine :=
  engine_of
    [ ("A", {| run := 0; dependencies :=
                 [DepSpec "B" (Some age34); DepSpec "C" (Some davey)] |});
      ("B", {| run := 1; dependencies := [DepName "D"] |});
      ("C", {| run := 2; dependencies := [DepName "D"] |});
      ("D", {| run := d; dependencies := [] |}) ].

(** The options of [taskB] and of [taskC] as dependencies of [taskA] under
    [hi], and the trace of [runTask("taskA", hi)] on [sample_engine]. *)
Definition hi_age : options_object :=
  depOptions hi (normalize (DepSpec "taskB" (Some age34))).
Definition hi_davey : options_object :=
  depOptions hi (normalize (DepSpec "taskC" (Some davey))).

(** A store with the options [hi] of [taskA] at [1] and the override of
    [taskC] at [2]. *)
Definition sample_store : store := {[ 1%positive := hi; 2%positive := davey ]}.

Definition taskB_trace : list event :=
  [ EvEnter "taskB" hi_age;
    EvInvoke "taskB" hi_age sample_engine [];
    EvSettle "taskB" (Fulfilled (VStr "B")) ].

Definition sample_trace : list event :=
  EvEnter "taskA" hi ::
  taskB_trace ++
  [ EvEnter "taskC" hi_davey;
    EvEnter "taskD" hi_davey;
    EvInvoke "taskD" hi_davey sample_engine [];
    EvSettle "taskD" (Fulfilled (VStr "D"));
    EvInvoke "taskC" hi_davey sample_engine [VStr "D"];
    EvSettle "taskC" (Fulfilled (VStr "C"));
    EvInvoke "taskA" hi sample_engine [VStr "B"; VStr "C"];
    EvSettle "taskA" (Fulfilled VUndefined) ].

(** ** Chained registrations *)

Section Chain.

Variable code : fref → js_function.

(** Chained registrations: [this.addTask(...).addTask(...)...]. *)
Definition addTasks (calls : list (value * name_arg * list dep_decl)) (this : TaskEngine)
    : js_result TaskEngine :=
  foldl (λ r '(task, taskName, dependencies),
           this ← r; addTask code this task taskName dependencies)
        (Normal this) calls.

End Chain.

(** ** Properties of function objects, the decorator, bulk registration *)

(** The properties [taskName] and [dependencies] of a function object, as
    [addTasksFromObject] reads them: [taskName] is a string or is missing,
    [dependencies] is an array ([Array.isArray]) or is not. *)
Record fn_props := {
  taskName_prop : option string;
  dependencies_prop : option (list dep_decl)
}.

Definition no_props : fn_props :=
  {| taskName_prop := None; dependencies_prop := None |}.

(** The properties of the function [f] in a store of function objects. *)
Definition props_of (σ : gmap fref fn_props) (f : fref) : fn_props :=
  default no_props (σ !! f).

(** An argument of [TaskEngine.task]: missing, a string, an array of
    dependencies or a function. *)
Inductive task_arg :=
| TAbsent
| TName (s : string)
| TDeps (ds : list dep_decl)
| TFun (f : fref).

(** The closure [decorator] of [TaskEngine.task]: the [taskName] (a string
    or [undefined]) and the [dependencies] (an array or not) it captured. *)
Record decorator := {
  dec_taskName : option string;
  dec_dependencies : option (list dep_decl)
}.

(** [decorator(target)], for a function [target]. *)
Definition apply_decorator (d : decorator) (target : fref) (σ : gmap fref fn_props)
    : gmap fref fn_props :=
  let σ :=
    match dec_dependencies d with
    | Some dependencies =>
        <[target := {| taskName_prop := taskName_prop (props_of σ target);
                       dependencies_prop := Some dependencies |}]> σ
    | None => σ
    end in
  match dec_taskName d with
  | Some taskName =>
      if truthy (VStr taskName) then
        <[target := {| taskName_prop := Some taskName;
                       dependencies_prop := dependencies_prop (props_of σ target) |}]> σ
      else σ
  | None => σ
  end.

(** What [TaskEngine.task] returns: the function it decorated, or the
    decorator. *)
Inductive task_result :=
| Decorated (f : fref)
| Decorator (d : decorator).

(** The arguments of [t] after the first. *)
Inductive more_args :=
| NoMore
| OneMore (taskName : name_arg)
| TwoMore (taskName : name_arg) (dependencies : list dep_decl).

(** [arguments.length] *)
Definition arguments_length (more : more_args) : nat :=
  match more with
  | NoMore => 1
  | OneMore _ => 2
  | TwoMore _ _ => 3
  end.

Definition taskName_of (more : more_args) : name_arg :=
  match more with
  | NoMore => ArgAbsent
  | OneMore taskName | TwoMore taskName _ => taskName
  end.

(** [dependencies = []] *)
Definition dependencies_of (more : more_args) : list dep_decl :=
  match more with
  | TwoMore _ dependencies => dependencies
  | _ => []
  end.

(** [Object(v) === v && typeof v === 'object'] *)
Definition is_object (v : value) : bool :=
  match v with
  | VArr _ | VObj _ | VError _ | VTypeError _ => true
  | _ => false
  end.

(** The engine as a call leaves it, and what the call threw, if it threw. *)
Definition returned (r : js_result TaskEngine) (this : TaskEngine)
    : TaskEngine * option value :=
  match r with
  | Normal this' => (this', None)
  | Abrupt e => (this, Some e)
  end.

Section Bulk.

Variable code : fref → js_function.

(** [TaskEngine.task (taskName, dependencies, task = null)] *)
Definition TaskEngine_task (taskName dependencies task : task_arg)
    (σ : gmap fref fn_props) : task_result * gmap fref fn_props :=
  (* if (typeof taskName === 'function') *)
  let '(taskName, dependencies, task) :=
    match taskName with
    | TFun f => (ArgName (fname (code f)), TDeps [], TFun f)
    | TName s => (ArgName s, dependencies, task)
    | TDeps ds => (ArgDeps ds, dependencies, task)
    | TAbsent => (ArgAbsent, dependencies, task)
    end in
  (* if (typeof dependencies === 'function') *)
  let '(dependencies, task) :=
    match dependencies with
    | TFun f => (Some [], TFun f)
    | TDeps ds => (Some ds, task)
    | TName _ | TAbsent => (None, task)
    end in
  (* if (Array.isArray(taskName)) *)
  let '(taskName, dependencies) :=
    match taskName with
    | ArgDeps ds => (Some "", Some ds)
    | ArgName s => (Some s, dependencies)
    | ArgAbsent => (None, dependencies)
    end in
  let decorator := {| dec_taskName := taskName; dec_dependencies := dependencies |} in
  match task with
  | TFun f => (Decorated f, apply_decorator decorator f σ)
  | _ => (Decorator decorator, σ)
  end.

(** [Object.keys(object)] with [object[key]], in the order of [Object.keys]:
    the properties of an object are given in that order, the keys of an
    array and of a string are the indices.  The enumerable properties of a
    function ([taskName], [dependencies]) hold no function and are left
    out, as [addTasksFromObject] skips them. *)
Definition entries (object : value) : js_result (list (string * value)) :=
  match object with
  | VUndefined | VNull =>
      Abrupt (VTypeError "Cannot convert undefined or null to object")
  | VObj props => Normal props
  | VArr elems => Normal (imap (λ i v, (pretty i, v)) elems)
  | VStr s =>
      Normal (imap (λ i c, (pretty i, VStr (String c ""))) (String.list_ascii_of_string s))
  | _ => Normal []
  end.

(** The body of the [forEach] of [addTasksFromObject]. *)
Definition add_entry (σ : gmap fref fn_props) (this : TaskEngine)
    (entry : string * value) : js_result TaskEngine :=
  let '(key, task) := entry in
  match task with
  | VFun f =>
      let taskName :=
        match taskName_prop (props_of σ f) with
        | Some s => if truthy (VStr s) then s else key
        | None => key
        end in
      let deps := default [] (dependencies_prop (props_of σ f)) in
      addTask code this task (ArgName taskName) deps
  | _ => Normal this
  end.

(** [forEach]: a throw ends the loop and leaves what was written. *)
Fixpoint forEach_entry (σ : gmap fref fn_props) (this : TaskEngine)
    (l : list (string * value)) : TaskEngine * option value :=
  match l with
  | [] => (this, None)
  | entry :: l =>
      match add_entry σ this entry with
      | Normal this => forEach_entry σ this l
      | Abrupt e => (this, Some e)
      end
  end.

(** [addTasksFromObject (object)] *)
Definition addTasksFromObject (σ : gmap fref fn_props) (this : TaskEngine)
    (object : value) : TaskEngine * option value :=
  match entries object with
  | Normal l => forEach_entry σ this l
  | Abrupt e => (this, Some e)
  end.

(** [t (task, taskName, dependencies = [])] *)
Definition t (σ : gmap fref fn_props) (this : TaskEngine) (task : value)
    (more : more_args) : TaskEngine * option value :=
  if (arguments_length more =? 1) && is_object task then
    addTasksFromObject σ this task
  else
    returned (addTask code this task (taskName_of more) (dependencies_of more)) this.

(** What [addTasksFromObject] registers for an entry: the name and the
    entry of the registry. *)
Definition registration (σ : gmap fref fn_props) (entry : string * value)
    : option (string * task_entry) :=
  match entry.2 with
  | VFun f =>
      Some (registered_name code f
              (ArgName (match taskName_prop (props_of σ f) with
                        | Some s => if truthy (VStr s) then s else entry.1
                        | None => entry.1
                        end)),
            {| run := f; dependencies := default [] (dependencies_prop (props_of σ f)) |})
  | _ => None
  end.

End Bulk.

(** ** The registry with the order of its keys

    [Object.keys] lists the keys that are array indices first, in ascending
    order, then the other keys in the order in which they were created.
    Writing to a key that exists keeps its place. *)

Definition digit_value (c : Ascii.ascii) : option N :=
  let n := Ascii.N_of_ascii c in
  if ((48 <=? n) && (n <=? 57))%N then Some (n - 48)%N else None.

Fixpoint parse_decimal (acc : N) (s : string) : option N :=
  match s with
  | EmptyString => Some acc
  | String c s => d ← digit_value c; parse_decimal (10 * acc + d)%N s
  end.

(** An array index: the decimal form, without leading zeros, of a number
    below [2^32 - 1]. *)
Definition array_index (s : string) : option N :=
  n ← parse_decimal 0 s;
  if decide (pretty n = s ∧ (n < 2 ^ 32 - 1)%N) then Some n else None.

(** [object[k] = v] for a key that exists. *)
Fixpoint replace_property {A} (k : string) (v : A) (l : list (string * A))
    : list (string * A) :=
  match l with
  | [] => []
  | (k', v') :: l =>
      if String.eqb k' k then (k, v) :: l else (k', v') :: replace_property k v l
  end.

(** [object[k] = v] for a new key [k] that is the array index [n]. *)
Fixpoint insert_index {A} (n : N) (k : string) (v : A) (l : list (string * A))
    : list (string * A) :=
  match l with
  | [] => [(k, v)]
  | (k', v') :: l' =>
      match array_index k' with
      | Some m => if (m <? n)%N then (k', v') :: insert_index n k v l' else (k, v) :: l
      | None => (k, v) :: l
      end
  end.

(** [object[k] = v] *)
Definition set_property {A} (k : string) (v : A) (l : list (string * A))
    : list (string * A) :=
  if bool_decide (k ∈ l.*1) then replace_property k v l
  else match array_index k with
       | Some n => insert_index n k v l
       | None => l ++ [(k, v)]
       end.

(** The engine, with [this.tasks] as the list of its properties in the
    order of [Object.keys]. *)
Record OrderedEngine := { ordered_tasks : list (string * task_entry) }.

(** [getTaskNames ()] *)
Definition getTaskNames (this : OrderedEngine) : list string := (ordered_tasks this).*1.

(** The engine without the order of its keys. *)
Definition to_engine (this : OrderedEngine) : TaskEngine := engine_of (ordered_tasks this).

Section Ordered.

Variable code : fref → js_function.

(** [addTask (task, taskName, dependencies = [])] on [OrderedEngine]. *)
Definition addTask_ordered (this : OrderedEngine) (task : value) (taskName : name_arg)
    (dependencies : list dep_decl) : js_result OrderedEngine :=
  '(taskName, dependencies) ←
    match taskName with
    | ArgDeps ds => name ← get_name code task; Normal (name, ds)
    | ArgName s => Normal (VStr s, dependencies)
    | ArgAbsent => Normal (VUndefined, dependencies)
    end;
  taskName ← (if negb (truthy taskName) then get_name code task else Normal taskName);
  match task with
  | VFun f =>
      if truthy taskName then
        Normal {| ordered_tasks :=
          set_property (property_key taskName)
            {| run := f; dependencies := dependencies |} (ordered_tasks this) |}
      else
        Abrupt (VError ("Task function must be a named function or " +:+
                        "an explicit task name must be passed in"))
  | _ => Abrupt (VError "Task must be a function")
  end.

(** Chained registrations on [OrderedEngine]. *)
Definition addTasks_ordered (calls : list (value * name_arg * list dep_decl))
    (this : OrderedEngine) : js_result OrderedEngine :=
  foldl (λ r '(task, taskName, dependencies),
           this ← r; addTask_ordered this task taskName dependencies)
        (Normal this) calls.

End Ordered.

(** ** The command line ([cli.js])

    The entry point, given the engine exported by the task file.  Reading
    the options ([readOptionsFromCommandLine], [loadModule]) is not
    embedded: both are parameters.  The output on the console is left out. *)

(** [s.replace(/^:/g, '')] *)
Definition strip_colon (s : string) : string :=
  if String.prefix ":" s then String.substring 1 (String.length s - 1) s else s.

(** [args[i] || d] *)
Definition arg_or (args : list string) (i : nat) (d : string) : string :=
  match args !! i with
  | Some a => if String.eqb a "" then d else a
  | None => d
  end.

(** A call whose callee is an array: [TypeError: name is not a function]. *)
Definition call_array {A} (name : string) (callee : list value) (arguments : list value)
    : js_result A :=
  Abrupt (VTypeError (name +:+ " is not a function")).

(** [v[0] === ':'] *)
Definition first_is_colon (v : value) : bool :=
  match v with
  | VStr s => String.prefix ":" s
  | VArr (VStr ":" :: _) => true
  | _ => false
  end.

Section CommandLine.

Variable code : fref → js_function.
Variable loadModule : string → js_result (options_object).
Variable readOptionsFromCommandLine : list string → js_result (options_object).

(** The entry point of [cli.js], for [process.argv = argv] and
    [require(path.resolve('taskfile.js')) = tEngine]; [fuel] bounds the
    recursion of [runTask]. *)
Definition cli_main (fuel : nat) (tEngine : TaskEngine) (argv : list string)
    : js_result (Promise value) :=
  let args := drop 2 argv in
  let taskName := strip_colon (arg_or args 0 "default") in
  noDeps ← (v ← call_array "args" (VStr <$> args) [VArr [VNum 0]];
            Normal (first_is_colon v));
  let optionsModuleId := arg_or args 1 "" in
  options ← (if negb (String.eqb optionsModuleId "") &&
                negb (String.prefix "-" optionsModuleId)
             then loadModule optionsModuleId
             else readOptionsFromCommandLine args);
  if (noDeps : bool) then runTaskWithoutDependencies code tEngine taskName options
  else Normal (runTask code fuel tEngine taskName options).

End CommandLine.

(** ** More sample registries *)

(** [sample_engine] after [addTask(list, ['taskB'])]. *)
Definition list_engine : TaskEngine :=
  {| tasks := <["list" := {| run := 4; dependencies := [DepName "taskB"] |}]>
                (tasks sample_engine) |}.

(** [sample_engine] after [addTask(list, 'job')]. *)
Definition job_engine : TaskEngine :=
  {| tasks := <["job" := {| run := 4; dependencies := [] |}]> (tasks sample_engine) |}.

(** The arguments of [addTask(taskA).addTask(taskB, 'b').addTask(taskC, ['b'])]
    and the engine the chain gives on a new engine. *)
Definition sample_calls : list (value * name_arg * list dep_decl) :=
  [ (VFun 0, ArgAbsent, []);
    (VFun 1, ArgName "b", []);
    (VFun 2, ArgDeps [DepName "b"], []) ].

Definition chain_engine : TaskEngine :=
  engine_of
    [ ("taskA", {| run := 0; dependencies := [] |});
      ("b", {| run := 1; dependencies := [] |});
      ("taskC", {| run := 2; dependencies := [DepName "b"] |}) ].

(** The depth of the tasks of [sample_engine]. *)
Definition sample_rank (name : string) : nat :=
  if String.eqb name "taskA" then 2 else if String.eqb name "taskC" then 1 else 0.

(** [ping] depends on [pong] and [pong] on [ping]. *)
Definition loop_engine : TaskEngine :=
  engine_of
    [ ("ping", {| run := 0; dependencies := [DepName "pong"] |});
      ("pong", {| run := 1; dependencies := [DepName "ping"; DepName "taskB"] |});
      ("taskB", {| run := 1; dependencies := [] |}) ].

(** The trace of [taskC] as a dependency of [taskA] on [sample_engine]. *)
Definition taskC_trace : list event :=
  [ EvEnter "taskC" hi_davey;
    EvEnter "taskD" hi_davey;
    EvInvoke "taskD" hi_davey sample_engine [];
    EvSettle "taskD" (Fulfilled (VStr "D"));
    EvInvoke "taskC" hi_davey sample_engine [VStr "D"];
    EvSettle "taskC" (Fulfilled (VStr "C")) ].

(** An object with two task functions and a property that is no function;
    the function [taskC] carries the properties that
    [TaskEngine.task('compile', ['taskB'], taskC)] leaves. *)
Definition sample_object : value :=
  VObj [ ("taskB", VFun 1); ("version", VNum 1); ("build", VFun 2) ].

Definition sample_props : gmap fref fn_props :=
  {[ 2 := {| taskName_prop := Some "compile";
             dependencies_prop := Some [DepName "taskB"] |} ]}.

(** An object whose second function has neither a key nor a name. *)
Definition nameless_object : value :=
  VObj [ ("taskB", VFun 1); ("", VFun 7); ("taskD", VFun 3) ].

(** A registry with the order of its keys. *)
Definition ordered_sample : OrderedEngine :=
  {| ordered_tasks :=
       [ ("taskA", {| run := 0; dependencies := [DepName "taskB"] |});
         ("taskB", {| run := 1; dependencies := [] |}) ] |}.

(** The function properties after the decorators of the test "should add
    tasks": [$task([], taskA)], [$task('taskB', ['taskC'], taskB)] and
    [$task('taskC', taskC)]. *)
Definition decorated_props : gmap fref fn_props :=
  let σ := (TaskEngine_task sample_code (TDeps []) (TFun 0) TAbsent ∅).2 in
  let σ := (TaskEngine_task sample_code (TName "taskB") (TDeps [DepName "taskC"]) (TFun 1) σ).2 in
  (TaskEngine_task sample_code (TName "taskC") (TFun 2) TAbsent σ).2.

(** ** Promise chains and the reduction over the dependencies *)

Section Properties.

Variable code : fref → js_function.

Lemma then_resolve {A B} (a : A) (f : A → Promise B) :
  then_ (Promise_resolve a) f = f a.
Proof. unfold then_, Promise_resolve. by destruct (f a) as [[tr s]|]. Qed.

Lemma then_fulfilled {A B} tr (a : A) (f : A → Promise B) tr' s :
  f a = Some (tr', s) → then_ (Some (tr, Fulfilled a)) f = Some (tr ++ tr', s).
Proof. intros Hf. unfold then_. by rewrite Hf. Qed.

Lemma then_rejected {A B} tr e (f : A → Promise B) :
  then_ (Some (tr, Rejected e)) f = Some (tr, Rejected e).
Proof. reflexivity. Qed.

Lemma runTask_S n this taskName options :
  runTask code (S n) this taskName options =
  traced taskName options
    match tasks this !! taskName with
    | Some task =>
        then_ (fold_left (reduce_step (runTask code n this) this options)
                         (dependencies task) (Promise_resolve []))
              (λ results, invoke code this taskName task options (Array_slice results))
    | None => Promise_reject (VError ("Task " +:+ taskName +:+ " does not exist"))
    end.
Proof. reflexivity. Qed.

Lemma reduce_step_rejected rec this options tr e d :
  reduce_step rec this options (Some (tr, Rejected e)) d = Some (tr, Rejected e).
Proof. unfold reduce_step. by case_match. Qed.

Lemma reduce_rejected rec this options ds tr e :
  fold_left (reduce_step rec this options) ds (Some (tr, Rejected e))
  = Some (tr, Rejected e).
Proof.
  induction ds as [|d ds IH]; [done|].
  cbn [fold_left]. by rewrite reduce_step_rejected.
Qed.

Lemma reduce_step_resolved rec this options tr results d trd v :
  canRunTask this (dep_task (normalize d)) = true →
  rec (dep_task (normalize d)) (depOptions options (normalize d)) = Some (trd, Fulfilled v) →
  reduce_step rec this options (Some (tr, Fulfilled results)) d
  = Some (tr ++ trd, Fulfilled (Array_concat results v)).
Proof.
  intros Hcan Hrec. unfold reduce_step. rewrite Hcan.
  apply then_fulfilled. rewrite Hrec. cbn. by rewrite app_nil_r.
Qed.

Lemma reduce_step_failed rec this options tr results d trd e :
  canRunTask this (dep_task (normalize d)) = true →
  rec (dep_task (normalize d)) (depOptions options (normalize d)) = Some (trd, Rejected e) →
  reduce_step rec this options (Some (tr, Fulfilled results)) d
  = Some (tr ++ trd, Rejected e).
Proof.
  intros Hcan Hrec. unfold reduce_step. rewrite Hcan.
  apply then_fulfilled. by rewrite Hrec.
Qed.

Lemma reduce_step_missing rec this options tr results d :
  canRunTask this (dep_task (normalize d)) = false →
  reduce_step rec this options (Some (tr, Fulfilled results)) d
  = Some (tr, Rejected (VError ("Dependent task " +:+ dep_task (normalize d) +:+ " not found"))).
Proof.
  intros Hcan. unfold reduce_step. rewrite Hcan. cbn. by rewrite app_nil_r.
Qed.

Lemma runTask_fulfilled_registered n this taskName options tr v :
  runTask code n this taskName options = Some (tr, Fulfilled v) →
  canRunTask this taskName = true.
Proof.
  destruct n as [|n]; [done|]. rewrite runTask_S.
  unfold canRunTask. destruct (tasks this !! taskName) as [task|] eqn:Hlook.
  - intros _. apply bool_decide_eq_true. eauto.
  - cbn. discriminate.
Qed.

Lemma reduce_resolved n this options ds outs tr results :
  Forall2 (resolves_to code n this options) ds outs →
  fold_left (reduce_step (runTask code n this) this options) ds (Some (tr, Fulfilled results))
  = Some (tr ++ concat outs.*1, Fulfilled (fold_left Array_concat outs.*2 results)).
Proof.
  intros Hall. revert tr results.
  induction Hall as [|d [trd v] ds outs Hd _ IH]; intros tr results.
  - cbn. by rewrite app_nil_r.
  - cbn [fold_left fmap list_fmap concat fst snd].
    unfold resolves_to in Hd. cbn [fst snd] in Hd.
    rewrite (reduce_step_resolved _ _ _ _ _ _ trd v);
      [|by eapply runTask_fulfilled_registered|done].
    rewrite IH. by rewrite <- app_assoc.
Qed.

(** The trace of a call starts with its entry and ends with its settlement. *)
Lemma runTask_enters_first n this taskName options tr s :
  runTask code n this taskName options = Some (tr, s) →
  ∃ tr', tr = EvEnter taskName options :: tr'.
Proof.
  destruct n as [|n]; [done|]. rewrite runTask_S. unfold traced.
  destruct (match tasks this !! taskName with Some _ => _ | None => _ end)
    as [[tr0 s0]|]; [|done].
  intros [= <- _]. eauto.
Qed.

Lemma runTask_settles_last n this taskName options tr s :
  runTask code n this taskName options = Some (tr, s) →
  ∃ tr', tr = tr' ++ [EvSettle taskName s].
Proof.
  destruct n as [|n]; [done|]. rewrite runTask_S. unfold traced.
  destruct (match tasks this !! taskName with Some _ => _ | None => _ end)
    as [[tr0 s0]|]; [|done].
  intros [= <- <-]. by exists (EvEnter taskName options :: tr0).
Qed.

(** Out of fuel, and the traces only grow. *)
Lemma reduce_out_of_fuel rec this options ds :
  fold_left (reduce_step rec this options) ds None = None.
Proof.
  induction ds as [|d ds IH]; [done|]. cbn [fold_left].
  replace (reduce_step rec this options None d) with (@None (list event * settlement (list value))).
  - done.
  - unfold reduce_step. by case_match.
Qed.

Lemma reduce_step_extends rec this options tr st d tr2 s2 :
  reduce_step rec this options (Some (tr, st)) d = Some (tr2, s2) →
  ∃ tr', tr2 = tr ++ tr'.
Proof.
  unfold reduce_step, then_. destruct st as [results|e].
  - case_match.
    + destruct (rec _ _) as [[trd [v|e]]|]; cbn; [| |done].
      * intros [= <- _]. eauto.
      * intros [= <- _]. eauto.
    + cbn. intros [= <- _]. eauto.
  - case_match; intros [= <- _]; exists []; by rewrite app_nil_r.
Qed.

Lemma reduce_extends rec this options ds tr st tr2 s2 :
  fold_left (reduce_step rec this options) ds (Some (tr, st)) = Some (tr2, s2) →
  ∃ tr', tr2 = tr ++ tr'.
Proof.
  revert tr st. induction ds as [|d ds IH]; intros tr st; cbn [fold_left].
  - intros [= <- _]. exists []. by rewrite app_nil_r.
  - destruct (reduce_step rec this options (Some (tr, st)) d) as [[tr1 s1]|] eqn:Hstep.
    + apply reduce_step_extends in Hstep as [tr' ->].
      intros [tr'' ->]%IH. exists (tr' ++ tr''). by rewrite app_assoc.
    + by rewrite reduce_out_of_fuel.
Qed.

(** *** Fuel *)

Lemma then_mono {A B} (p p' : Promise A) (f g : A → Promise B) r :
  (∀ x, p = Some x → p' = Some x) →
  (∀ a y, f a = Some y → g a = Some y) →
  then_ p f = Some r → then_ p' g = Some r.
Proof.
  intros Hp Hfg. unfold then_. destruct p as [[tr [a|e]]|]; [| |done].
  - rewrite (Hp _ eq_refl). destruct (f a) as [[tr' s]|] eqn:Hf; [|done].
    by rewrite (Hfg _ _ Hf).
  - by rewrite (Hp _ eq_refl).
Qed.

Lemma reduce_step_mono rec rec' this options p p' d r :
  (∀ name o y, rec name o = Some y → rec' name o = Some y) →
  (∀ x, p = Some x → p' = Some x) →
  reduce_step rec this options p d = Some r →
  reduce_step rec' this options p' d = Some r.
Proof.
  intros Hrec Hp. unfold reduce_step. case_match.
  - apply then_mono; [done|]. intros results y. apply then_mono; [apply Hrec|done].
  - by apply then_mono.
Qed.

Lemma reduce_mono rec rec' this options ds p p' r :
  (∀ name o y, rec name o = Some y → rec' name o = Some y) →
  (∀ x, p = Some x → p' = Some x) →
  fold_left (reduce_step rec this options) ds p = Some r →
  fold_left (reduce_step rec' this options) ds p' = Some r.
Proof.
  intros Hrec. revert p p'. induction ds as [|d ds IH]; intros p p' Hp; cbn [fold_left].
  - apply Hp.
  - apply IH. intros x. by apply reduce_step_mono.
Qed.

(** More fuel does not change the outcome of a call that returned. *)
Lemma runTask_fuel_mono n this taskName options r :
  runTask code n this taskName options = Some r →
  runTask code (S n) this taskName options = Some r.
Proof.
  revert this taskName options r.
  induction n as [|n IH]; intros this taskName options r; [done|].
  rewrite (runTask_S (S n)), (runTask_S n). unfold traced.
  destruct (tasks this !! taskName) as [task|]; [|done].
  destruct (then_ (fold_left (reduce_step (runTask code n this) this options) _ _) _)
    as [[tr s]|] eqn:Hn; [|done].
  eapply then_mono in Hn; [by rewrite Hn| |done].
  intros x. apply reduce_mono; [apply IH|done].
Qed.

Lemma runTask_fuel_le n m this taskName options r :
  n ≤ m →
  runTask code n this taskName options = Some r →
  runTask code m this taskName options = Some r.
Proof.
  induction 1 as [|m _ IH]; [done|]. intros Hn. by apply runTask_fuel_mono, IH.
Qed.

(** *** The outcomes of a call *)

(** A name that is not registered: the promise is rejected at once. *)
Lemma runTask_not_registered n this taskName options :
  tasks this !! taskName = None →
  let e := VError ("Task " +:+ taskName +:+ " does not exist") in
  runTask code (S n) this taskName options
  = Some ([EvEnter taskName options; EvSettle taskName (Rejected e)], Rejected e).
Proof. intros Hlook. rewrite runTask_S, Hlook. reflexivity. Qed.

(** Every dependency resolves: the dependencies run one after the other in the
    order of the array, then the function of the task is called with the
    accumulated results. *)
Lemma runTask_all_resolved n this taskName task options outs :
  tasks this !! taskName = Some task →
  Forall2 (resolves_to code n this options) (dependencies task) outs →
  let results := fold_left Array_concat outs.*2 [] in
  let s := settle (fbody (code (run task)) options this results) in
  runTask code (S n) this taskName options
  = Some (EvEnter taskName options ::
          concat outs.*1 ++ [EvInvoke taskName options this results; EvSettle taskName s],
          s).
Proof.
  intros Hlook Hall results s. rewrite runTask_S, Hlook.
  unfold Promise_resolve. rewrite (reduce_resolved _ _ _ _ outs) by done.
  cbn. by rewrite <- app_assoc.
Qed.

(** A dependency is rejected after its earlier siblings resolved: nothing
    else runs and the rejection is that of the whole call. *)
Lemma runTask_dependency_rejected n this taskName task options pre d post outs trd e :
  tasks this !! taskName = Some task →
  dependencies task = pre ++ d :: post →
  Forall2 (resolves_to code n this options) pre outs →
  canRunTask this (dep_task (normalize d)) = true →
  runTask code n this (dep_task (normalize d)) (depOptions options (normalize d))
  = Some (trd, Rejected e) →
  runTask code (S n) this taskName options
  = Some (EvEnter taskName options ::
          concat outs.*1 ++ trd ++ [EvSettle taskName (Rejected e)],
          Rejected e).
Proof.
  intros Hlook Hdeps Hall Hcan Hd. rewrite runTask_S, Hlook, Hdeps.
  rewrite fold_left_app. cbn [fold_left].
  unfold Promise_resolve. rewrite (reduce_resolved _ _ _ _ outs) by done.
  rewrite (reduce_step_failed _ _ _ _ _ _ trd e) by done.
  rewrite reduce_rejected. cbn. by rewrite <- app_assoc.
Qed.

(** A dependency names a task that is not registered. *)
Lemma runTask_dependency_not_registered n this taskName task options pre d post outs :
  tasks this !! taskName = Some task →
  dependencies task = pre ++ d :: post →
  Forall2 (resolves_to code n this options) pre outs →
  canRunTask this (dep_task (normalize d)) = false →
  let e := VError ("Dependent task " +:+ dep_task (normalize d) +:+ " not found") in
  runTask code (S n) this taskName options
  = Some (EvEnter taskName options :: concat outs.*1 ++ [EvSettle taskName (Rejected e)],
          Rejected e).
Proof.
  intros Hlook Hdeps Hall Hcan e. rewrite runTask_S, Hlook, Hdeps.
  rewrite fold_left_app. cbn [fold_left].
  unfold Promise_resolve. rewrite (reduce_resolved _ _ _ _ outs) by done.
  rewrite reduce_step_missing by done.
  rewrite reduce_rejected. reflexivity.
Qed.

Lemma reduce_cases n this options ds tr results tr2 s2 :
  fold_left (reduce_step (runTask code n this) this options) ds (Some (tr, Fulfilled results))
  = Some (tr2, s2) →
  (∃ outs, Forall2 (resolves_to code n this options) ds outs ∧
           tr2 = tr ++ concat outs.*1 ∧
           s2 = Fulfilled (fold_left Array_concat outs.*2 results)) ∨
  (∃ pre d post outs trd e,
     ds = pre ++ d :: post ∧
     Forall2 (resolves_to code n this options) pre outs ∧
     fails_with code n this options d trd e ∧
     tr2 = tr ++ concat outs.*1 ++ trd ∧ s2 = Rejected e).
Proof.
  revert tr results. induction ds as [|d ds IH]; intros tr results; cbn [fold_left].
  - intros [= <- <-]. left. exists []. split; [constructor|]. by rewrite app_nil_r.
  - destruct (canRunTask this (dep_task (normalize d))) eqn:Hcan.
    + destruct (runTask code n this (dep_task (normalize d))
                  (depOptions options (normalize d))) as [[trd [v|e]]|] eqn:Hd.
      * rewrite (reduce_step_resolved _ _ _ _ _ _ trd v) by done.
        intros [(outs & Hall & -> & ->) | (pre & d' & post & outs & trd' & e & -> & Hall & Hf & -> & ->)]%IH.
        -- left. exists ((trd, v) :: outs). split; [by constructor|].
           cbn. by rewrite <- app_assoc.
        -- right. exists (d :: pre), d', post, ((trd, v) :: outs), trd', e.
           split; [done|]. split; [by constructor|]. split; [done|].
           cbn. by rewrite <- !app_assoc.
      * rewrite (reduce_step_failed _ _ _ _ _ _ trd e) by done.
        rewrite reduce_rejected. intros [= <- <-].
        right. exists [], d, ds, [], trd, e.
        split; [done|]. split; [constructor|]. split; [by left|]. done.
      * replace (reduce_step (runTask code n this) this options
                   (Some (tr, Fulfilled results)) d)
          with (@None (list event * settlement (list value))).
        -- by rewrite reduce_out_of_fuel.
        -- unfold reduce_step, then_. by rewrite Hcan, Hd.
    + rewrite reduce_step_missing by done. rewrite reduce_rejected. intros [= <- <-].
      right. eexists [], d, ds, [], [], _.
      split; [done|]. split; [constructor|]. split; [by right|].
      by rewrite app_nil_r.
Qed.

(** X8: every call that returns is sequential: the dependencies resolve one after
    the other in the order of the array, each from its [EvEnter] to its
    [EvSettle], until all have resolved and the function of the task is
    called with the accumulated results, or until the first one fails, which
    ends the call with that failure. *)
Lemma runTask_cases n this taskName task options tr s :
  tasks this !! taskName = Some task →
  runTask code (S n) this taskName options = Some (tr, s) →
  (∃ outs,
     Forall2 (resolves_to code n this options) (dependencies task) outs ∧
     let results := fold_left Array_concat outs.*2 [] in
     s = settle (fbody (code (run task)) options this results) ∧
     tr = EvEnter taskName options ::
          concat outs.*1 ++ [EvInvoke taskName options this results; EvSettle taskName s]) ∨
  (∃ pre d post outs trd e,
     dependencies task = pre ++ d :: post ∧
     Forall2 (resolves_to code n this options) pre outs ∧
     fails_with code n this options d trd e ∧
     s = Rejected e ∧
     tr = EvEnter taskName options ::
          concat outs.*1 ++ trd ++ [EvSettle taskName (Rejected e)]).
Proof.
  intros Hlook. rewrite runTask_S, Hlook. unfold Promise_resolve.
  destruct (fold_left _ _ _) as [[tr2 s2]|] eqn:Hfold; [|done].
  apply reduce_cases in Hfold
    as [(outs & Hall & -> & ->) | (pre & d & post & outs & trd & e & Hds & Hall & Hf & -> & ->)].
  - cbn. intros [= <- <-]. left. exists outs. split; [done|]. split; [done|].
    by rewrite <- app_assoc.
  - cbn. intros [= <- <-]. right. exists pre, d, post, outs, trd, e.
    split; [done|]. split; [done|]. split; [done|]. split; [done|].
    by rewrite <- app_assoc.
Qed.

(** When no resolved value is an array, the accumulated results are the
    resolved values, one per dependency and in order. *)
Lemma results_without_arrays (vs results : list value) :
  Forall (λ v, ∀ elems, v ≠ VArr elems) vs →
  fold_left Array_concat vs results = results ++ vs.
Proof.
  intros Hvs. revert results.
  induction Hvs as [|v vs Hv _ IH]; intros results; cbn [fold_left].
  - by rewrite app_nil_r.
  - rewrite IH. replace (Array_concat results v) with (results ++ [v]).
    + by rewrite <- app_assoc.
    + destruct v; try reflexivity. by destruct (Hv elems).
Qed.

(** X9: every dependency resolves and no resolved value is an array: the
    function of the task receives the resolved values, one per dependency
    and in the order of the array. *)
Lemma runTask_results_one_per_dependency n this taskName task options outs :
  tasks this !! taskName = Some task →
  Forall2 (resolves_to code n this options) (dependencies task) outs →
  Forall (λ v, ∀ elems, v ≠ VArr elems) outs.*2 →
  let s := settle (fbody (code (run task)) options this outs.*2) in
  runTask code (S n) this taskName options
  = Some (EvEnter taskName options ::
          concat outs.*1 ++ [EvInvoke taskName options this outs.*2; EvSettle taskName s],
          s) ∧
  length outs.*2 = length (dependencies task).
Proof.
  intros Hlook Hall Hvs s. split.
  - rewrite (runTask_all_resolved n this taskName task options outs) by done.
    by rewrite results_without_arrays.
  - rewrite length_fmap. symmetry. by eapply Forall2_length.
Qed.

(** ** Running a task with its dependencies *)

(** C1: the results passed to a task function have one element per
    dependency.  The code spreads a dependency's array: here the only
    dependency of [A] resolves to the array [[1, 2]] and the function of [A]
    receives the two results [1] and [2]. *)
Theorem runTask_spreads_array_result :
  tasks spread_engine !! "A" = Some {| run := 0; dependencies := [DepName "L"] |} ∧
  runTask sample_code 2 spread_engine "A" ∅
  = Some ([ EvEnter "A" ∅;
            EvEnter "L" ∅;
            EvInvoke "L" ∅ spread_engine [];
            EvSettle "L" (Fulfilled (VArr [VNum 1; VNum 2]));
            EvInvoke "A" ∅ spread_engine [VNum 1; VNum 2];
            EvSettle "A" (Fulfilled VUndefined) ],
          Fulfilled VUndefined).
Proof. split; vm_compute; reflexivity. Qed.

(** C3: with dependencies [[B, C]], [B] runs to completion before [C] is
    started, and the function of [A] receives [[resultOfB, resultOfC]].  The
    order holds; the results do not when [B] resolves to an array: here [B]
    resolves to [[1, 2]] and [A] receives [[1, 2, "C"]]. *)
Theorem runTask_two_dependencies_array_result :
  runTask sample_code 2 ordered_engine "A" ∅
  = Some ([ EvEnter "A" ∅;
            EvEnter "B" ∅;
            EvInvoke "B" ∅ ordered_engine [];
            EvSettle "B" (Fulfilled (VArr [VNum 1; VNum 2]));
            EvEnter "C" ∅;
            EvInvoke "C" ∅ ordered_engine [];
            EvSettle "C" (Fulfilled (VStr "C"));
            EvInvoke "A" ∅ ordered_engine [VNum 1; VNum 2; VStr "C"];
            EvSettle "A" (Fulfilled VUndefined) ],
          Fulfilled VUndefined).
Proof. vm_compute; reflexivity. Qed.

(** A task without dependencies: its function is called at once, with no
    results. *)
Lemma runTask_leaf n this taskName task options :
  tasks this !! taskName = Some task →
  dependencies task = [] →
  let s := settle (fbody (code (run task)) options this []) in
  runTask code (S n) this taskName options
  = Some ([EvEnter taskName options; EvInvoke taskName options this [];
           EvSettle taskName s], s).
Proof.
  intros Hlook Hdeps s.
  rewrite (runTask_all_resolved n this taskName task options []); [done..|].
  rewrite Hdeps. constructor.
Qed.

(** Two dependencies without dependencies of their own, both fulfilled: the
    first has settled before the second is entered, and the results are
    accumulated in the order of the array. *)
Lemma runTask_two_leaves n this taskName task options dB dC tB tC vB vC :
  tasks this !! taskName = Some task →
  dependencies task = [dB; dC] →
  tasks this !! dep_task (normalize dB) = Some tB → dependencies tB = [] →
  tasks this !! dep_task (normalize dC) = Some tC → dependencies tC = [] →
  let oB := depOptions options (normalize dB) in
  let oC := depOptions options (normalize dC) in
  settle (fbody (code (run tB)) oB this []) = Fulfilled vB →
  settle (fbody (code (run tC)) oC this []) = Fulfilled vC →
  let results := Array_concat (Array_concat [] vB) vC in
  let s := settle (fbody (code (run task)) options this results) in
  runTask code (S (S n)) this taskName options
  = Some ([ EvEnter taskName options;
            EvEnter (dep_task (normalize dB)) oB;
            EvInvoke (dep_task (normalize dB)) oB this [];
            EvSettle (dep_task (normalize dB)) (Fulfilled vB);
            EvEnter (dep_task (normalize dC)) oC;
            EvInvoke (dep_task (normalize dC)) oC this [];
            EvSettle (dep_task (normalize dC)) (Fulfilled vC);
            EvInvoke taskName options this results;
            EvSettle taskName s ], s).
Proof.
  intros Hlook Hdeps HB HBd HC HCd oB oC HvB HvC results s.
  pose proof (runTask_leaf n this _ tB oB HB HBd) as HrunB.
  pose proof (runTask_leaf n this _ tC oC HC HCd) as HrunC.
  cbn zeta in HrunB, HrunC. rewrite HvB in HrunB. rewrite HvC in HrunC.
  rewrite (runTask_all_resolved (S n) this taskName task options
             [([ EvEnter (dep_task (normalize dB)) oB;
                 EvInvoke (dep_task (normalize dB)) oB this [];
                 EvSettle (dep_task (normalize dB)) (Fulfilled vB) ], vB);
              ([ EvEnter (dep_task (normalize dC)) oC;
                 EvInvoke (dep_task (normalize dC)) oC this [];
                 EvSettle (dep_task (normalize dC)) (Fulfilled vC) ], vC)]);
    [done|done|].
  rewrite Hdeps. repeat constructor; assumption.
Qed.

(** C5: with dependencies [[B, C]], when the resolution of [B] is rejected
    with [e], the trace of the call holds the events of [B] and nothing of
    [C] or of the function of the task, and the call is rejected with [e]
    itself. *)
Theorem failed_dependency_stops_resolution n this taskName task options dB dC trB e :
  tasks this !! taskName = Some task →
  dependencies task = [dB; dC] →
  canRunTask this (dep_task (normalize dB)) = true →
  runTask code n this (dep_task (normalize dB)) (depOptions options (normalize dB))
  = Some (trB, Rejected e) →
  runTask code (S n) this taskName options
  = Some (EvEnter taskName options :: trB ++ [EvSettle taskName (Rejected e)],
          Rejected e).
Proof.
  intros Hlook Hdeps Hcan HB.
  apply (runTask_dependency_rejected n this taskName task options [] dB [dC] [] trB e);
    auto using Forall2_nil.
Qed.

(** C6, as amended: a dependency that is not registered rejects the call,
    once the dependencies declared before it have resolved, with an error
    that names the missing dependency only; no later dependency is started
    and the function of the task is not called. *)
Theorem missing_dependency_rejects n this taskName task options pre d post outs :
  tasks this !! taskName = Some task →
  dependencies task = pre ++ d :: post →
  Forall2 (resolves_to code n this options) pre outs →
  tasks this !! dep_task (normalize d) = None →
  let e := VError ("Dependent task " +:+ dep_task (normalize d) +:+ " not found") in
  runTask code (S n) this taskName options
  = Some (EvEnter taskName options :: concat outs.*1 ++ [EvSettle taskName (Rejected e)],
          Rejected e).
Proof.
  intros Hlook Hdeps Hall Hmiss.
  apply (runTask_dependency_not_registered n this taskName task options pre d post outs);
    try done.
  unfold canRunTask. apply bool_decide_eq_false. rewrite Hmiss. by intros [? ?].
Qed.

(** ** Options of a dependency *)

(** *** The options object of a dependency is a new object *)

Lemma Object_assign_in_two (h : store) target s1 s2 t m1 m2 :
  target ≠ s1 → target ≠ s2 →
  h !! target = Some t → h !! s1 = Some m1 → h !! s2 = Some m2 →
  Object_assign_in target [s1; s2] h = <[target := m2 ∪ (m1 ∪ t)]> h.
Proof.
  intros H1 H2 Ht Hs1 Hs2. unfold Object_assign_in. cbn [fold_left].
  rewrite Ht, Hs1, lookup_insert_eq, lookup_insert_ne, Hs2 by done.
  by rewrite insert_insert_eq.
Qed.

Lemma new_object_spec (h : store) :
  h !! (new_object h).1 = None ∧
  (new_object h).2 !! (new_object h).1 = Some ∅ ∧
  ∀ l, is_Some (h !! l) → (new_object h).2 !! l = h !! l ∧ l ≠ (new_object h).1.
Proof.
  unfold new_object. cbn [fst snd].
  assert (Ht : h !! fresh (dom h) = None) by (apply not_elem_of_dom, is_fresh).
  split; [done|]. split; [by rewrite lookup_insert_eq|].
  intros l [x Hx]. assert (fresh (dom h) ≠ l) by (intros <-; congruence).
  by rewrite lookup_insert_ne.
Qed.

(** The target is an object that did not exist, no object that existed is
    written, and the properties of the target are [depOptions] of the
    properties of [options] and of [d.options]. *)
Lemma depOptions_in_spec (h : store) lo ld options d :
  h !! lo = Some options →
  holds h ld (dep_options d) →
  ∃ l' h',
    depOptions_in lo ld h = (l', h') ∧
    h !! l' = None ∧
    h' !! l' = Some (depOptions options d) ∧
    ∀ l, is_Some (h !! l) → h' !! l = h !! l.
Proof.
  intros Hlo Hld. unfold depOptions_in, depOptions, Object_assign. cbn [fold_left].
  destruct (new_object h) as [t h1] eqn:Hnew.
  destruct (new_object_spec h) as (Ht & Hh1 & Hframe1). rewrite Hnew in *. cbn [fst snd] in *.
  destruct (Hframe1 lo) as [Hlo1 Hlot]; [by eauto|]. rewrite Hlo in Hlo1.
  destruct ld as [l|], (dep_options d) as [m|]; try done; cbn in Hld.
  - destruct (Hframe1 l) as [Hl1 Hlt]; [by eauto|]. rewrite Hld in Hl1.
    eexists _, _. split; [reflexivity|]. split; [done|].
    rewrite (Object_assign_in_two h1 t lo l ∅ options m) by done.
    split; [by rewrite lookup_insert_eq|].
    intros l0 Hl0. destruct (Hframe1 l0 Hl0) as [<- ?]. by rewrite lookup_insert_ne.
  - destruct (new_object h1) as [u h2] eqn:Hnew2.
    destruct (new_object_spec h1) as (Hu & Hh2 & Hframe2). rewrite Hnew2 in *.
    cbn [fst snd] in *.
    destruct (Hframe2 t) as [Ht2 Htu]; [by eauto|]. rewrite Hh1 in Ht2.
    destruct (Hframe2 lo) as [Hlo2 Hlou]; [by eauto|]. rewrite Hlo1 in Hlo2.
    eexists _, _. split; [reflexivity|]. split; [done|].
    rewrite (Object_assign_in_two h2 t lo u ∅ options ∅) by done.
    split; [by rewrite lookup_insert_eq|].
    intros l0 Hl0. destruct (Hframe1 l0 Hl0) as [Heq ?].
    destruct (Hframe2 l0) as [Heq2 ?]; [by rewrite Heq|].
    rewrite lookup_insert_ne by done. by rewrite Heq2.
Qed.

(** [Object.assign({}, options, d.options || {})]: a key of the override
    wins, every other key is inherited. *)
Lemma depOptions_lookup options d k :
  depOptions options d !! k
  = match dep_options d ≫= (.!! k) with
    | Some v => Some v
    | None => options !! k
    end.
Proof.
  unfold depOptions, Object_assign. cbn [fold_left].
  rewrite !lookup_union, lookup_empty.
  destruct (dep_options d) as [o|]; cbn.
  - destruct (o !! k), (options !! k); reflexivity.
  - rewrite lookup_empty. destruct (options !! k); reflexivity.
Qed.

Lemma depOptions_no_override options d :
  dep_options d = None → depOptions options d = options.
Proof.
  intros Hd. apply map_eq. intros k. rewrite depOptions_lookup, Hd. reflexivity.
Qed.


Local Ltac count_invocations :=
  unfold invocations;
  cbn [List.filter is_invoke_of app concat fst snd fmap list_fmap];
  repeat match goal with
         | H : String.eqb _ _ = false |- _ => rewrite H
         end;
  rewrite ?String.eqb_refl;
  cbn [List.filter is_invoke_of app concat fst snd fmap list_fmap length];
  done.

(** C8, as amended: in the diamond ([A] depends on [B] and [C], which both
    depend on the leaf [D]), when the run of [D] under [B] and the function
    of [B] are fulfilled, the function of [D] is called exactly twice, first
    with the options merged along [A], [B], [D] and then with those merged
    along [A], [C], [D]. *)
Theorem diamond_runs_twice n this A tA options dB dC tB tC dDB dDC D tD v vB :
  tasks this !! A = Some tA → dependencies tA = [dB; dC] →
  tasks this !! dep_task (normalize dB) = Some tB → dependencies tB = [dDB] →
  tasks this !! dep_task (normalize dC) = Some tC → dependencies tC = [dDC] →
  dep_task (normalize dDB) = D → dep_task (normalize dDC) = D →
  tasks this !! D = Some tD → dependencies tD = [] →
  let oB := depOptions options (normalize dB) in
  let oC := depOptions options (normalize dC) in
  let oBD := depOptions oB (normalize dDB) in
  let oCD := depOptions oC (normalize dDC) in
  settle (fbody (code (run tD)) oBD this []) = Fulfilled v →
  settle (fbody (code (run tB)) oB this (Array_concat [] v)) = Fulfilled vB →
  ∃ tr s,
    runTask code (S (S (S n))) this A options = Some (tr, s) ∧
    invocations D tr = 2 ∧
    List.filter (is_invoke_of D) tr = [EvInvoke D oBD this []; EvInvoke D oCD this []].
Proof.
  intros HA HAd HB HBd HC HCd HDB HDC HD HDd oB oC oBD oCD Hv HvB.
  set (B := dep_task (normalize dB)) in *.
  set (C := dep_task (normalize dC)) in *.
  assert (HAD : String.eqb A D = false).
  { apply String.eqb_neq. intros ->. rewrite HA in HD. injection HD as ->. congruence. }
  assert (HBD : String.eqb B D = false).
  { apply String.eqb_neq. intros Heq. rewrite Heq, HD in HB. injection HB as ->. congruence. }
  assert (HCD : String.eqb C D = false).
  { apply String.eqb_neq. intros Heq. rewrite Heq, HD in HC. injection HC as ->. congruence. }
  assert (HcanB : canRunTask this B = true).
  { apply bool_decide_eq_true. eauto. }
  assert (HcanC : canRunTask this C = true).
  { apply bool_decide_eq_true. eauto. }
  assert (HcanD : canRunTask this D = true).
  { apply bool_decide_eq_true. eauto. }
  pose proof (λ o, runTask_leaf n this D tD o HD HDd) as HrunD. cbn zeta in HrunD.
  (* the branch of B *)
  assert (HrunB : runTask code (S (S n)) this B oB
                  = Some (EvEnter B oB ::
                          concat [[EvEnter D oBD; EvInvoke D oBD this [];
                                   EvSettle D (Fulfilled v)]] ++
                          [EvInvoke B oB this (Array_concat [] v);
                           EvSettle B (Fulfilled vB)], Fulfilled vB)).
  { rewrite (runTask_all_resolved (S n) this B tB oB
               [([EvEnter D oBD; EvInvoke D oBD this []; EvSettle D (Fulfilled v)], v)]
               HB).
    - cbn [fold_left fmap list_fmap fst snd]. by rewrite HvB.
    - rewrite HBd. constructor; [|constructor].
      unfold resolves_to. rewrite HDB. fold oBD. rewrite HrunD, Hv. reflexivity. }
  (* the branch of C *)
  destruct (settle (fbody (code (run tD)) oCD this [])) as [v2|e2] eqn:Hv2.
  - assert (HrunC : runTask code (S (S n)) this C oC
                    = Some (EvEnter C oC ::
                            concat [[EvEnter D oCD; EvInvoke D oCD this [];
                                     EvSettle D (Fulfilled v2)]] ++
                            [EvInvoke C oC this (Array_concat [] v2);
                             EvSettle C (settle (fbody (code (run tC)) oC this
                                                   (Array_concat [] v2)))],
                            settle (fbody (code (run tC)) oC this (Array_concat [] v2)))).
    { rewrite (runTask_all_resolved (S n) this C tC oC
                 [([EvEnter D oCD; EvInvoke D oCD this []; EvSettle D (Fulfilled v2)], v2)]
                 HC).
      - reflexivity.
      - rewrite HCd. constructor; [|constructor].
        unfold resolves_to. rewrite HDC. fold oCD. rewrite HrunD, Hv2. reflexivity. }
    destruct (settle (fbody (code (run tC)) oC this (Array_concat [] v2)))
      as [vC|eC] eqn:HvC.
    + eexists _, _. split.
      * eapply (runTask_all_resolved (S (S n)) this A tA options [(_, vB); (_, vC)] HA).
        rewrite HAd. constructor; [exact HrunB|]. constructor; [exact HrunC|constructor].
      * count_invocations.
    + eexists _, _. split.
      * eapply (runTask_dependency_rejected (S (S n)) this A tA options
                 [dB] dC [] [(_, vB)] _ eC HA HAd); [|done|exact HrunC].
        constructor; [exact HrunB|constructor].
      * count_invocations.
  - assert (HrunC : runTask code (S (S n)) this C oC
                    = Some (EvEnter C oC ::
                            concat [] ++
                            [EvEnter D oCD; EvInvoke D oCD this [];
                             EvSettle D (Rejected e2)] ++
                            [EvSettle C (Rejected e2)], Rejected e2)).
    { apply (runTask_dependency_rejected (S n) this C tC oC [] dDC [] [] _ e2 HC HCd);
        [constructor|by rewrite HDC|].
      rewrite HDC. fold oCD. by rewrite HrunD, Hv2. }
    eexists _, _. split.
    + eapply (runTask_dependency_rejected (S (S n)) this A tA options
               [dB] dC [] [(_, vB)] _ e2 HA HAd); [|done|exact HrunC].
      constructor; [exact HrunB|constructor].
    + count_invocations.
Qed.

(** ** Running a task without its dependencies *)

(** A registered task: its function is called once with no results, and the
    dependencies are not read.  A failure of the function reaches the
    [catch] callback, where [this.reject] throws. *)
Lemma runTaskWithoutDependencies_registered this taskName task options :
  tasks this !! taskName = Some task →
  runTaskWithoutDependencies code this taskName options
  = Normal (Some ([EvInvoke taskName options this []],
                  match settle (fbody (code (run task)) options this []) with
                  | Fulfilled v => Fulfilled v
                  | Rejected _ => Rejected (VTypeError "this.reject is not a function")
                  end)).
Proof.
  intros Hlook. unfold runTaskWithoutDependencies, invoke, catch_. rewrite Hlook.
  by destruct (settle _).
Qed.

Lemma runTaskWithoutDependencies_not_registered this taskName options :
  tasks this !! taskName = None →
  runTaskWithoutDependencies code this taskName options
  = Abrupt (VTypeError "this.reject is not a function").
Proof. intros Hlook. unfold runTaskWithoutDependencies. by rewrite Hlook. Qed.

(** C10: on a registered task, [runTaskWithoutDependencies] returns a
    promise, and the only event up to its settlement is one call of the
    function of the task, [run task], with the options, the engine and an
    empty results array, whatever the dependencies of the task are.  The
    settlement is the one this call gives: the promise is fulfilled with the
    value that [run task] returns or resolves to, and where the call fails
    the promise is rejected by the [catch] callback (see C2).  Neither the
    dependencies of the task nor the function of another task take part. *)
Theorem runTaskWithoutDependencies_runs_only_task this taskName task options :
  tasks this !! taskName = Some task →
  runTaskWithoutDependencies code this taskName options
  = Normal (Some ([EvInvoke taskName options this []],
                  match settle (fbody (code (run task)) options this []) with
                  | Fulfilled v => Fulfilled v
                  | Rejected _ => Rejected (VTypeError "this.reject is not a function")
                  end)).
Proof.
  intros Hlook. unfold runTaskWithoutDependencies. rewrite Hlook.
  unfold invoke, catch_. by destruct (settle (fbody (code (run task)) options this [])).
Qed.

(** C2: a failure of the task function is delivered as it is.  The code
    delivers another error: for [boom], which throws [Error("Nope")], and
    for [late], which returns a promise rejected with [Error("Nope")], the
    promise is rejected with the [TypeError] of the call of [this.reject]. *)
Theorem runTaskWithoutDependencies_replaces_failure :
  fbody (sample_code 5) ∅ failing_engine [] = Throws (VError "Nope") ∧
  runTaskWithoutDependencies sample_code failing_engine "boom" ∅
  = Normal (Some ([EvInvoke "boom" ∅ failing_engine []],
                  Rejected (VTypeError "this.reject is not a function"))) ∧
  fbody (sample_code 6) ∅ failing_engine [] = ReturnsPromise (Rejected (VError "Nope")) ∧
  runTaskWithoutDependencies sample_code failing_engine "late" ∅
  = Normal (Some ([EvInvoke "late" ∅ failing_engine []],
                  Rejected (VTypeError "this.reject is not a function"))).
Proof. repeat split; vm_compute; reflexivity. Qed.

(** C7: a name that is not registered is rejected with
    [Error("Task ... does not exist")] and no function is called.  [runTask]
    does so; [runTaskWithoutDependencies] throws the [TypeError] of the call
    of [this.reject] instead of returning a promise. *)
Theorem runTaskWithoutDependencies_missing_throws options :
  runTask code 1 new_TaskEngine "missing" options
  = Some ([EvEnter "missing" options;
           EvSettle "missing" (Rejected (VError "Task missing does not exist"))],
          Rejected (VError "Task missing does not exist")) ∧
  runTaskWithoutDependencies code new_TaskEngine "missing" options
  = Abrupt (VTypeError "this.reject is not a function").
Proof. split; reflexivity. Qed.

(** ** Registration *)

Local Ltac step_addTask :=
  cbn [mbind js_result_bind get_name truthy negb registered_dependencies property_key].

(** A function with a name: the entry is written. *)
Lemma addTask_function this f taskName dependencies :
  registered_name code f taskName ≠ "" →
  addTask code this (VFun f) taskName dependencies
  = Normal {| tasks := <[registered_name code f taskName :=
                           {| run := f;
                              dependencies := registered_dependencies taskName dependencies |}]>
                        (tasks this) |}.
Proof.
  intros Hname. apply String.eqb_neq in Hname.
  destruct taskName as [|s|ds]; unfold addTask, registered_name in *; step_addTask.
  - by rewrite Hname.
  - destruct (String.eqb s "") eqn:Hs; step_addTask; by rewrite Hname.
  - rewrite Hname. step_addTask. by rewrite Hname.
Qed.

(** A function without a name. *)
Lemma addTask_function_nameless this f taskName dependencies :
  registered_name code f taskName = "" →
  addTask code this (VFun f) taskName dependencies
  = Abrupt (VError ("Task function must be a named function or " +:+
                    "an explicit task name must be passed in")).
Proof.
  intros Hname. apply String.eqb_eq in Hname.
  destruct taskName as [|s|ds]; unfold addTask, registered_name in *; step_addTask.
  - by rewrite Hname.
  - destruct (String.eqb s "") eqn:Hs; step_addTask; by rewrite Hname.
  - rewrite Hname. step_addTask. by rewrite Hname.
Qed.

(** A value that is not a function, [null] and [undefined] apart. *)
Lemma addTask_not_function this task taskName dependencies :
  (∀ f, task ≠ VFun f) → task ≠ VNull → task ≠ VUndefined →
  addTask code this task taskName dependencies = Abrupt (VError "Task must be a function").
Proof.
  intros Hfun Hnull Hundef.
  destruct task; try done; try (by destruct (Hfun f));
    destruct taskName as [|s'|ds]; cbn; try done;
    repeat case_match; done.
Qed.

(** [null] or [undefined] with a name. *)
Lemma addTask_nullish_named this task s dependencies :
  task = VNull ∨ task = VUndefined → s ≠ "" →
  addTask code this task (ArgName s) dependencies = Abrupt (VError "Task must be a function").
Proof.
  intros Htask Hs. apply String.eqb_neq in Hs.
  destruct Htask as [-> | ->]; cbn; by rewrite Hs.
Qed.

(** [null] or [undefined] without a name: [task.name] throws before
    [typeof task] is tested. *)
Lemma addTask_nullish_unnamed this task taskName dependencies :
  task = VNull ∨ task = VUndefined →
  taskName = ArgAbsent ∨ taskName = ArgName "" ∨ (∃ ds, taskName = ArgDeps ds) →
  ∃ message,
    addTask code this task taskName dependencies = Abrupt (VTypeError message) ∧
    ¬ ConfigurationError (VTypeError message).
Proof.
  intros [-> | ->] [-> | [-> | [ds ->]]]; eexists; (split; [reflexivity|]);
    by intros [? | ?].
Qed.

(** C9: [addTask] throws one of its two errors when the first argument is
    not a function or no name can be found, also for [null].  The code
    reads [task.name] before it tests [typeof task]: for [null] without a
    name the error is the [TypeError] of that read. *)
Theorem addTask_null_type_error this dependencies :
  addTask code this VNull ArgAbsent dependencies
  = Abrupt (VTypeError "Cannot read properties of null (reading 'name')") ∧
  ¬ ConfigurationError (VTypeError "Cannot read properties of null (reading 'name')").
Proof.
  split; [reflexivity|]. by intros [? | ?].
Qed.

End Properties.

(** ** Concrete runs *)

(** *** The tests of the repository on the model *)

(** "should add a task": the four shapes of a call of [addTask]. *)
Lemma addTask_in_the_four_shapes :
  (this ← addTask sample_code new_TaskEngine (VFun 0) ArgAbsent [];
   this ← addTask sample_code this (VFun 1) (ArgDeps [DepName "yep"]) [];
   this ← addTask sample_code this (VFun 0) (ArgName "biff") [];
   addTask sample_code this (VFun 1) (ArgName "whoa") [DepName "other"])
  = Normal (engine_of
              [ ("taskA", {| run := 0; dependencies := [] |});
                ("taskB", {| run := 1; dependencies := [DepName "yep"] |});
                ("biff", {| run := 0; dependencies := [] |});
                ("whoa", {| run := 1; dependencies := [DepName "other"] |}) ]).
Proof. vm_compute; reflexivity. Qed.

(** "should throw when adding a task with no name" *)
Lemma addTask_arrow_function_throws :
  fname (sample_code 7) = "" ∧
  ∃ e, addTask sample_code new_TaskEngine (VFun 7) ArgAbsent [] = Abrupt e ∧
       ConfigurationError e.
Proof. split; [reflexivity|]. eexists. split; [reflexivity|]. by right. Qed.

(** "should run a task's dependent tasks": [taskB] is called with
    [{ message: "hi", age: 34 }], [taskD] and [taskC] with
    [{ message: "hi", name: "Davey" }], [taskA] with [hi] and the results
    [["B", "C"]]. *)
Lemma runTask_dependent_tasks :
  hi_age = <[key "age" I := VNum 34]> hi ∧
  hi_davey = <[key "name" I := VStr "Davey"]> hi ∧
  runTask sample_code 3 sample_engine "taskA" hi = Some (sample_trace, Fulfilled VUndefined).
Proof. repeat split; vm_compute; reflexivity. Qed.

(** "should run tasks without running dependencies" *)
Lemma runTaskWithoutDependencies_alone :
  runTaskWithoutDependencies sample_code sample_engine "taskA" hi
  = Normal (Some ([EvInvoke "taskA" hi sample_engine []], Fulfilled VUndefined)).
Proof. vm_compute; reflexivity. Qed.

(** *** The properties on sample engines *)

(** C5 on [failing_engine]: [boom] throws, [taskC] is not started. *)
Lemma failed_dependency_stops_resolution_witness :
  runTask sample_code 2 failing_engine "A" hi
  = Some (EvEnter "A" hi ::
          [EvEnter "boom" hi; EvInvoke "boom" hi failing_engine [];
           EvSettle "boom" (Rejected (VError "Nope"))] ++
          [EvSettle "A" (Rejected (VError "Nope"))],
          Rejected (VError "Nope")).
Proof.
  apply (failed_dependency_stops_resolution sample_code 1 failing_engine "A"
           {| run := 0; dependencies := [DepName "boom"; DepName "taskC"] |}
           hi (DepName "boom") (DepName "taskC")).
  - vm_compute; reflexivity.
  - reflexivity.
  - vm_compute; reflexivity.
  - vm_compute; reflexivity.
Defined.

(** C6 on [build_engine]: [deploy] runs [taskB], then fails on [lint]. *)
Lemma missing_dependency_rejects_witness :
  runTask sample_code 2 build_engine "deploy" hi
  = Some (EvEnter "deploy" hi ::
          concat [[EvEnter "taskB" hi; EvInvoke "taskB" hi build_engine [];
                   EvSettle "taskB" (Fulfilled (VStr "B"))]] ++
          [EvSettle "deploy" (Rejected (VError "Dependent task lint not found"))],
          Rejected (VError "Dependent task lint not found")).
Proof.
  apply (missing_dependency_rejects sample_code 1 build_engine "deploy"
           {| run := 0;
              dependencies := [DepName "taskB"; DepName "lint"; DepName "taskC"] |}
           hi [DepName "taskB"] (DepName "lint") [DepName "taskC"]
           [([EvEnter "taskB" hi; EvInvoke "taskB" hi build_engine [];
              EvSettle "taskB" (Fulfilled (VStr "B"))], VStr "B")]).
  - vm_compute; reflexivity.
  - reflexivity.
  - constructor; [vm_compute; reflexivity | constructor].
  - vm_compute; reflexivity.
Defined.

(** C6 as stated fails.  [build] depends on [lint], which is not
    registered: the error carries [lint] and not [build].  [release] depends
    on [boom], which throws, and then on the missing [lint]: the error is
    the one thrown by [boom]. *)
Lemma dependency_error_omits_dependent :
  (∃ tr e, runTask sample_code 1 build_engine "build" ∅ = Some (tr, Rejected e) ∧
           carries e "lint" ∧ ¬ carries e "build") ∧
  (∃ tr e, runTask sample_code 2 failing_engine "release" ∅ = Some (tr, Rejected e) ∧
           e = VError "Nope" ∧ ¬ carries e "lint").
Proof.
  split; eexists _, _; (split; [vm_compute; reflexivity|]).
  - split; [vm_compute; eauto|]. vm_compute. by intros [? ?].
  - split; [reflexivity|]. vm_compute. by intros [? ?].
Qed.


(** C8 as stated fails: when [D] throws under [B], [C] is not started and
    the function of [D] is called once. *)
Lemma diamond_failure_runs_once :
  ∃ tr s, runTask sample_code 3 (diamond 5) "A" hi = Some (tr, s) ∧
          invocations "D" tr = 1.
Proof.
  eexists _, _. split; vm_compute; reflexivity.
Qed.

(** C8 on the diamond whose [D] returns ["D"]. *)
Lemma diamond_runs_twice_witness :
  ∃ tr s,
    runTask sample_code 3 (diamond 3) "A" hi = Some (tr, s) ∧
    invocations "D" tr = 2 ∧
    List.filter (is_invoke_of "D") tr
    = [ EvInvoke "D" (depOptions (depOptions hi (normalize (DepSpec "B" (Some age34))))
                                 (normalize (DepName "D"))) (diamond 3) [];
        EvInvoke "D" (depOptions (depOptions hi (normalize (DepSpec "C" (Some davey))))
                                 (normalize (DepName "D"))) (diamond 3) [] ].
Proof.
  apply (diamond_runs_twice sample_code 0 (diamond 3) "A"
           {| run := 0; dependencies :=
                [DepSpec "B" (Some age34); DepSpec "C" (Some davey)] |}
           hi (DepSpec "B" (Some age34)) (DepSpec "C" (Some davey))
           {| run := 1; dependencies := [DepName "D"] |}
           {| run := 2; dependencies := [DepName "D"] |}
           (DepName "D") (DepName "D") "D"
           {| run := 3; dependencies := [] |} (VStr "D") (VStr "B")).
  all: vm_compute; reflexivity.
Defined.

(** C10 on [sample_engine]: [taskA] has two dependencies, none is run; the
    promise is fulfilled with [undefined], which the function of [taskA]
    returns. *)
Lemma runTaskWithoutDependencies_runs_only_task_witness :
  runTaskWithoutDependencies sample_code sample_engine "taskA" hi
  = Normal (Some ([EvInvoke "taskA" hi sample_engine []],
                  match settle (fbody (sample_code 0) hi sample_engine []) with
                  | Fulfilled v => Fulfilled v
                  | Rejected _ => Rejected (VTypeError "this.reject is not a function")
                  end)).
Proof.
  apply (runTaskWithoutDependencies_runs_only_task sample_code sample_engine "taskA"
           {| run := 0; dependencies :=
                [DepSpec "taskB" (Some age34); DepSpec "taskC" (Some davey)] |} hi).
  vm_compute; reflexivity.
Defined.

(** ** Registration, in general *)

Section Registration.

Variable code : fref → js_function.

(** A call of [addTask] that returns was given a function with a usable
    name, and wrote one entry. *)
Lemma addTask_Normal_inv this task taskName dependencies this' :
  addTask code this task taskName dependencies = Normal this' →
  ∃ f, task = VFun f ∧ registered_name code f taskName ≠ "" ∧
       this' = {| tasks := <[registered_name code f taskName :=
                               {| run := f;
                                  dependencies :=
                                    registered_dependencies taskName dependencies |}]>
                            (tasks this) |}.
Proof.
  intros Hadd.
  assert (Hfun : ∃ f, task = VFun f).
  { destruct task; eauto;
      destruct taskName as [|name|ds]; cbn in Hadd; repeat case_match; discriminate. }
  destruct Hfun as [f ->]. exists f. split; [done|].
  destruct (decide (registered_name code f taskName = "")) as [Hname|Hname].
  - by rewrite (addTask_function_nameless code this f taskName dependencies Hname) in Hadd.
  - rewrite (addTask_function code this f taskName dependencies Hname) in Hadd.
    by injection Hadd as <-.
Qed.

(** [canRunTask] after a call of [addTask] that returned. *)
Lemma addTask_canRunTask this f taskName dependencies this' name :
  addTask code this (VFun f) taskName dependencies = Normal this' →
  canRunTask this' name = true ↔
  name = registered_name code f taskName ∨ canRunTask this name = true.
Proof.
  intros (f' & [= <-] & _ & ->)%addTask_Normal_inv.
  unfold canRunTask. cbn [tasks]. rewrite !bool_decide_eq_true.
  destruct (decide (registered_name code f taskName = name)) as [->|Hne].
  - rewrite lookup_insert_eq. split; eauto.
  - rewrite lookup_insert_ne by done. split; [eauto|]. by intros [->|?].
Qed.

(** X1: [addTask] returns exactly when its first argument is a function for
    which a name is found: the name passed in, if it is not empty, and the
    [name] of the function otherwise.  In every other case it throws. *)
Theorem addTask_succeeds_iff this task taskName dependencies :
  (∃ this', addTask code this task taskName dependencies = Normal this') ↔
  (∃ f, task = VFun f ∧ registered_name code f taskName ≠ "").
Proof.
  split.
  - intros [this' (f & -> & Hname & _)%addTask_Normal_inv]. eauto.
  - intros (f & -> & Hname). eexists. by apply addTask_function.
Qed.

(** X2: a call of [addTask] that returns has written the entry of the task,
    its function and its dependencies, under its name, and nothing else: the
    task can run, the other entries are as they were, and every task that
    could run still can. *)
Theorem addTask_writes_one_entry this task taskName dependencies this' :
  addTask code this task taskName dependencies = Normal this' →
  ∃ f, task = VFun f ∧
       let name := registered_name code f taskName in
       tasks this' !! name
       = Some {| run := f;
                 dependencies := registered_dependencies taskName dependencies |} ∧
       canRunTask this' name = true ∧
       (∀ other, other ≠ name → tasks this' !! other = tasks this !! other) ∧
       (∀ other, canRunTask this other = true → canRunTask this' other = true).
Proof.
  intros Hadd.
  destruct (addTask_Normal_inv _ _ _ _ _ Hadd) as (f & -> & Hname & Hthis').
  exists f. split; [done|]. cbn zeta.
  split; [subst this'; cbn; by rewrite lookup_insert_eq|].
  split; [apply (addTask_canRunTask _ _ _ _ _ _ Hadd); by left|].
  split; [intros other Hne; subst this'; cbn; by rewrite lookup_insert_ne|].
  intros other Hother. apply (addTask_canRunTask _ _ _ _ _ _ Hadd). by right.
Qed.

(** X3: a task added under a name that is taken replaces the task that had
    the name: the engine is the one that the second call alone gives. *)
Theorem addTask_replaces this f g taskName taskName' dependencies dependencies' this1 :
  addTask code this (VFun f) taskName dependencies = Normal this1 →
  registered_name code g taskName' = registered_name code f taskName →
  addTask code this1 (VFun g) taskName' dependencies'
  = addTask code this (VFun g) taskName' dependencies'.
Proof.
  intros (f' & [= <-] & Hname & ->)%addTask_Normal_inv Heq.
  rewrite !(addTask_function code _ g taskName' dependencies') by congruence.
  cbn. rewrite Heq. by rewrite insert_insert_eq.
Qed.

(** X4: the overloads of [addTask].  An array in the place of the name is
    the dependencies, and a third argument is then ignored; an empty name
    is no name. *)
Theorem addTask_overloads this task ds dependencies :
  addTask code this task (ArgDeps ds) dependencies = addTask code this task ArgAbsent ds ∧
  addTask code this task (ArgName "") dependencies = addTask code this task ArgAbsent dependencies.
Proof.
  split; [|reflexivity].
  unfold addTask. cbn [mbind js_result_bind truthy negb].
  destruct (get_name code task) as [name|e]; cbn [mbind js_result_bind]; [|done].
  destruct (truthy name) eqn:Hname; cbn [negb mbind js_result_bind]; by rewrite ?Hname.
Qed.

End Registration.

(** ** Chains of registrations and termination of [runTask] *)

Section Termination.

Variable code : fref → js_function.

Lemma addTasks_cons call calls this :
  addTasks code (call :: calls) this
  = (this ← addTask code this call.1.1 call.1.2 call.2; addTasks code calls this).
Proof.
  unfold addTasks. destruct call as [[task taskName] dependencies].
  cbn [foldl fst snd mbind js_result_bind].
  destruct (addTask code this task taskName dependencies) as [this1|e]; [done|].
  induction calls as [|[[? ?] ?] calls IH]; [done|]. cbn [foldl]. exact IH.
Qed.

(** X5: after a chain of [addTask] calls that returns, the tasks that can
    run are those that could run before and those that a call of the chain
    registered, under the name [addTask] gives them. *)
Theorem addTasks_registered calls this this' :
  addTasks code calls this = Normal this' →
  ∀ name, canRunTask this' name = true ↔
          canRunTask this name = true ∨
          ∃ f taskName dependencies,
            (VFun f, taskName, dependencies) ∈ calls ∧
            registered_name code f taskName = name.
Proof.
  revert this. induction calls as [|[[task taskName] dependencies] calls IH]; intros this.
  - intros [= <-] name. split; [by left|]. intros [?|(? & ? & ? & []%elem_of_nil & _)]; done.
  - rewrite addTasks_cons. cbn [fst snd mbind js_result_bind].
    destruct (addTask code this task taskName dependencies) as [this1|e] eqn:Hadd; [|done].
    intros Hrest name. rewrite (IH _ Hrest name).
    destruct (addTask_Normal_inv code _ _ _ _ _ Hadd) as (f & -> & _ & _).
    rewrite (addTask_canRunTask code _ _ _ _ _ name Hadd).
    split.
    + intros [[-> | Hname] | (g & tn & ds & Hin & Hg)].
      * right. exists f, taskName, dependencies. split; [left|done].
      * by left.
      * right. exists g, tn, ds. split; [by right|done].
    + intros [Hname | (g & tn & ds & Hin & Hg)].
      * left. by right.
      * apply elem_of_cons in Hin as [[= -> -> ->] | Hin].
        -- left. by left.
        -- right. eauto 6.
Qed.

(** Termination of [runTask] *)

Lemma reduce_is_Some rec this options ds p :
  (∀ d, d ∈ ds → canRunTask this (dep_task (normalize d)) = true →
        ∀ o, is_Some (rec (dep_task (normalize d)) o)) →
  is_Some p →
  is_Some (fold_left (reduce_step rec this options) ds p).
Proof.
  revert p. induction ds as [|d ds IH]; intros p Hrec Hp; [done|].
  cbn [fold_left]. apply IH.
  - intros d' Hd'. apply Hrec. by right.
  - destruct Hp as [[tr st] ->]. unfold reduce_step.
    destruct (canRunTask this (dep_task (normalize d))) eqn:Hcan.
    + destruct st as [results|e]; [|by eexists].
      destruct (Hrec d (list_elem_of_here _ _) Hcan (depOptions options (normalize d)))
        as [[trd sd] Hd].
      unfold then_. rewrite Hd. destruct sd; by eexists.
    + destruct st; by eexists.
Qed.

(** X6: [runTask] settles on a registry without cycles.  When every
    registered dependency of every task has a smaller rank than the task,
    the call for [taskName] returns its trace and its settlement within a
    recursion depth of the rank of [taskName], whether [taskName] and its
    dependencies are registered or not. *)
Theorem runTask_returns_on_acyclic (rank : string → nat) this :
  map_Forall (λ name task,
                Forall (λ d, canRunTask this (dep_task (normalize d)) = true →
                             rank (dep_task (normalize d)) < rank name)
                       (dependencies task)) (tasks this) →
  ∀ taskName options, is_Some (runTask code (S (rank taskName)) this taskName options).
Proof.
  intros Hrank.
  assert (Hall : ∀ n taskName options,
            rank taskName < n → is_Some (runTask code n this taskName options)).
  { induction n as [|n IH]; intros taskName options Hlt; [lia|].
    rewrite runTask_S. destruct (tasks this !! taskName) as [task|] eqn:Hlook; [|by eexists].
    destruct (reduce_is_Some (runTask code n this) this options (dependencies task)
                (Promise_resolve [])) as [[tr st] Hfold].
    - intros d Hd Hcan o. apply IH.
      pose proof (Hrank _ _ Hlook) as Hdeps. rewrite Forall_forall in Hdeps.
      specialize (Hdeps d Hd Hcan). lia.
    - by eexists.
    - rewrite Hfold. destruct st; by eexists. }
  intros taskName options. apply Hall. lia.
Qed.

(** X7: [runTask] never settles on a cycle.  When every task of a set has
    a first dependency in the set, the call for a task of the set has no
    result at any recursion depth: the promise it returns stays pending. *)
Theorem runTask_cycle_never_returns (cycle : gset string) this :
  (∀ name, name ∈ cycle →
     ∃ task d rest, tasks this !! name = Some task ∧
                    dependencies task = d :: rest ∧
                    dep_task (normalize d) ∈ cycle) →
  ∀ n taskName options, taskName ∈ cycle → runTask code n this taskName options = None.
Proof.
  intros Hcycle. induction n as [|n IH]; intros taskName options Hin; [done|].
  destruct (Hcycle _ Hin) as (task & d & rest & Hlook & Hdeps & Hd).
  destruct (Hcycle _ Hd) as (task' & _ & _ & Hlook' & _).
  rewrite runTask_S, Hlook, Hdeps. cbn [fold_left].
  replace (reduce_step (runTask code n this) this options (Promise_resolve []) d)
    with (@None (list event * settlement (list value))).
  - by rewrite reduce_out_of_fuel.
  - unfold reduce_step, canRunTask. rewrite Hlook'.
    rewrite bool_decide_eq_true_2 by eauto.
    unfold then_, Promise_resolve. by rewrite IH.
Qed.

End Termination.

(** ** What a run calls and with which options *)

Section Runs.

Variable code : fref → js_function.

Lemma reduce_Forall (P : event → Prop) rec this options ds tr st tr2 s2 :
  (∀ d trd sd, d ∈ ds →
     canRunTask this (dep_task (normalize d)) = true →
     rec (dep_task (normalize d)) (depOptions options (normalize d)) = Some (trd, sd) →
     Forall P trd) →
  Forall P tr →
  fold_left (reduce_step rec this options) ds (Some (tr, st)) = Some (tr2, s2) →
  Forall P tr2.
Proof.
  revert tr st. induction ds as [|d ds IH]; intros tr st Hrec Htr; cbn [fold_left].
  - by intros [= <- _].
  - destruct (reduce_step rec this options (Some (tr, st)) d) as [[tr1 s1]|] eqn:Hstep;
      [|by rewrite reduce_out_of_fuel].
    apply IH; [intros d' trd sd Hd'; apply Hrec; by right|].
    revert Hstep. unfold reduce_step.
    destruct (canRunTask this (dep_task (normalize d))) eqn:Hcan.
    + destruct st as [results|e]; [|by intros [= <- _]].
      unfold then_.
      destruct (rec _ _) as [[trd sd]|] eqn:Hd; [|done].
      pose proof (Hrec d trd sd (list_elem_of_here _ _) Hcan Hd) as Htrd.
      destruct sd; intros [= <- _]; rewrite ?app_nil_r; by apply Forall_app.
    + destruct st; cbn; intros [= <- _]; by rewrite ?app_nil_r.
Qed.

(** X10: [runTask] calls only functions of registered tasks, and passes
    the engine itself as their second argument. *)
Theorem runTask_calls_registered_with_engine n this taskName options tr s :
  runTask code n this taskName options = Some (tr, s) →
  Forall (λ ev, match ev with
                | EvInvoke name _ engine _ =>
                    engine = this ∧ canRunTask this name = true
                | _ => True
                end) tr.
Proof.
  revert taskName options tr s.
  induction n as [|n IH]; intros taskName options tr s; [done|].
  rewrite runTask_S. destruct (tasks this !! taskName) as [task|] eqn:Hlook.
  - unfold Promise_resolve.
    destruct (fold_left _ _ _) as [[tr1 [results|e]]|] eqn:Hfold; [| |done].
    + cbn. intros [= <- _]. constructor; [done|].
      apply Forall_app. split; [|by constructor].
      apply Forall_app. split.
      * eapply reduce_Forall; [|constructor|exact Hfold].
        intros d trd sd _ _ Hd. by eapply IH.
      * constructor; [|constructor]. split; [done|].
        apply bool_decide_eq_true. eauto.
    + cbn. intros [= <- _]. constructor; [done|].
      apply Forall_app. split; [|by constructor].
      eapply reduce_Forall; [|constructor|exact Hfold].
      intros d trd sd _ _ Hd. by eapply IH.
  - cbn. intros [= <- _]. by repeat constructor.
Qed.

(** X11: an option that no dependency of the registry overrides reaches
    every task of the run unchanged: every [runTask] entered and every
    function called sees, as the own property [k] of its options, the value
    the caller gave for [k] (or its absence).  The key [k] is any name of a
    property of an options object, that is any string other than
    ["__proto__"]. *)
Theorem option_without_override_reaches_every_task k n this taskName options tr s :
  map_Forall (λ _ task,
                Forall (λ d, dep_options (normalize d) ≫= (.!! k) = None)
                       (dependencies task)) (tasks this) →
  runTask code n this taskName options = Some (tr, s) →
  Forall (λ ev, match ev with
                | EvEnter _ o | EvInvoke _ o _ _ => o !! k = options !! k
                | EvSettle _ _ => True
                end) tr.
Proof.
  intros Hno. revert taskName options tr s.
  induction n as [|n IH]; intros taskName options tr s; [done|].
  rewrite runTask_S. destruct (tasks this !! taskName) as [task|] eqn:Hlook.
  - pose proof (Hno _ _ Hlook) as Hdeps. rewrite Forall_forall in Hdeps.
    assert (Hsub : ∀ d trd sd, d ∈ dependencies task →
              canRunTask this (dep_task (normalize d)) = true →
              runTask code n this (dep_task (normalize d))
                (depOptions options (normalize d)) = Some (trd, sd) →
              Forall (λ ev, match ev with
                            | EvEnter _ o | EvInvoke _ o _ _ => o !! k = options !! k
                            | EvSettle _ _ => True
                            end) trd).
    { intros d trd sd Hd _ Hrun. apply IH in Hrun.
      assert (Hk : depOptions options (normalize d) !! k = options !! k).
      { rewrite depOptions_lookup. by rewrite (Hdeps d Hd). }
      eapply Forall_impl; [exact Hrun|]. intros [] ?; congruence. }
    unfold Promise_resolve.
    destruct (fold_left _ _ _) as [[tr1 [results|e]]|] eqn:Hfold; [| |done].
    + cbn. intros [= <- _]. constructor; [done|].
      apply Forall_app. split; [|by constructor].
      apply Forall_app. split; [|by repeat constructor].
      eapply reduce_Forall; [exact Hsub|constructor|exact Hfold].
    + cbn. intros [= <- _]. constructor; [done|].
      apply Forall_app. split; [|by constructor].
      eapply reduce_Forall; [exact Hsub|constructor|exact Hfold].
  - cbn. intros [= <- _]. by repeat constructor.
Qed.

(** X12: where the function of a registered task returns or is fulfilled,
    [runTaskWithoutDependencies] is fulfilled with its value after the
    single call of the function with no results; for a task without
    dependencies [runTask] calls the function with the same arguments and
    is fulfilled with the same value. *)
Theorem runTaskWithoutDependencies_fulfils this taskName task options v :
  tasks this !! taskName = Some task →
  settle (fbody (code (run task)) options this []) = Fulfilled v →
  runTaskWithoutDependencies code this taskName options
  = Normal (Some ([EvInvoke taskName options this []], Fulfilled v)) ∧
  (dependencies task = [] →
   ∀ n, runTask code (S n) this taskName options
        = Some ([EvEnter taskName options; EvInvoke taskName options this [];
                 EvSettle taskName (Fulfilled v)], Fulfilled v)).
Proof.
  intros Hlook Hv. split.
  - rewrite (runTaskWithoutDependencies_registered code this taskName task options Hlook).
    by rewrite Hv.
  - intros Hdeps n.
    rewrite (runTask_all_resolved code n this taskName task options []); [|done|].
    + cbn. by rewrite Hv.
    + rewrite Hdeps. constructor.
Qed.

End Runs.

(** ** Bulk registration and the decorator *)

Section Bulk_registration.

Variable code : fref → js_function.

Lemma add_entry_registration σ this entry :
  add_entry code σ this entry
  = match registration code σ entry with
    | Some (name, task) =>
        if String.eqb name "" then
          Abrupt (VError ("Task function must be a named function or " +:+
                          "an explicit task name must be passed in"))
        else Normal {| tasks := <[name := task]> (tasks this) |}
    | None => Normal this
    end.
Proof.
  destruct entry as [key task]. unfold add_entry, registration. cbn [fst snd].
  destruct task; try reflexivity.
  set (taskName := ArgName _).
  destruct (String.eqb (registered_name code f taskName) "") eqn:Hname.
  - apply String.eqb_eq in Hname. by apply addTask_function_nameless.
  - apply String.eqb_neq in Hname. by rewrite addTask_function.
Qed.

Lemma list_to_map_reverse_cons (r : string * task_entry) rs (m : gmap string task_entry) :
  list_to_map (reverse (r :: rs)) ∪ m = list_to_map (reverse rs) ∪ <[r.1 := r.2]> m.
Proof.
  destruct r as [name task].
  rewrite reverse_cons, list_to_map_app, <- (assoc_L (∪)). f_equal.
  by rewrite insert_union_singleton_l.
Qed.

Lemma forEach_entry_registers σ this l :
  Forall (λ entry, ∀ r, registration code σ entry = Some r → r.1 ≠ "") l →
  forEach_entry code σ this l
  = ({| tasks := list_to_map (reverse (omap (registration code σ) l)) ∪ tasks this |}, None).
Proof.
  intros Hl. revert this. induction Hl as [|entry l Hentry _ IH]; intros this.
  - cbn. rewrite (left_id_L ∅ (∪)). by destruct this.
  - cbn [forEach_entry omap list_omap]. rewrite add_entry_registration.
    destruct (registration code σ entry) as [[name task]|] eqn:Hreg.
    + specialize (Hentry _ eq_refl). apply String.eqb_neq in Hentry. cbn in Hentry.
      rewrite Hentry, IH. cbn [tasks].
      by rewrite (list_to_map_reverse_cons (name, task)).
    + apply IH.
Qed.

Lemma registration_nonempty σ entry r :
  entry.1 ≠ "" → registration code σ entry = Some r → r.1 ≠ "".
Proof.
  destruct entry as [key task]. unfold registration. cbn [fst snd]. intros Hkey.
  destruct task; try done. intros [= <-]. cbn [fst registered_name].
  apply String.eqb_neq in Hkey as Hk.
  destruct (taskName_prop (props_of σ f)) as [s|].
  - cbn [truthy]. destruct (String.eqb s "") eqn:Hs; cbn [negb].
    + by rewrite Hk.
    + rewrite Hs. by apply String.eqb_neq.
  - by rewrite Hk.
Qed.

(** X13: [addTasksFromObject] on an object none of whose keys is empty (an
    array, a string, an object with names for keys) never throws.  It
    registers one task for each property that holds a function, under the
    [taskName] of the function if it has one and under the key otherwise,
    with the [dependencies] of the function if they are an array and none
    otherwise; later properties win over earlier ones and over the tasks
    registered before; the properties that hold no function are skipped. *)
Theorem addTasksFromObject_registers σ this object l :
  entries object = Normal l →
  Forall (λ entry, entry.1 ≠ "") l →
  addTasksFromObject code σ this object
  = ({| tasks := list_to_map (reverse (omap (registration code σ) l)) ∪ tasks this |}, None) ∧
  ∀ name,
    canRunTask (addTasksFromObject code σ this object).1 name = true ↔
    canRunTask this name = true ∨ name ∈ (omap (registration code σ) l).*1.
Proof.
  intros Hobj Hkeys.
  assert (Hl : Forall (λ entry, ∀ r, registration code σ entry = Some r → r.1 ≠ "") l).
  { eapply Forall_impl; [exact Hkeys|]. intros entry Hkey r. by apply registration_nonempty. }
  assert (Heq : addTasksFromObject code σ this object
                = ({| tasks := list_to_map (reverse (omap (registration code σ) l))
                               ∪ tasks this |}, None)).
  { unfold addTasksFromObject. rewrite Hobj. by apply forEach_entry_registers. }
  split; [done|]. intros name. rewrite Heq. cbn [fst]. unfold canRunTask. cbn [tasks].
  rewrite !bool_decide_eq_true, lookup_union_is_Some.
  rewrite <- (elem_of_dom (list_to_map _)), dom_list_to_map_L, elem_of_list_to_set.
  rewrite fmap_reverse, elem_of_reverse. tauto.
Qed.

(** X14: [addTasksFromObject] is not atomic.  When a property holds a
    function for which no name is found, the call throws the error of
    [addTask]; the tasks of the properties before it stay registered and
    the properties after it are not looked at. *)
Theorem addTasksFromObject_stops_at_nameless σ this object pre entry post task :
  entries object = Normal (pre ++ entry :: post) →
  Forall (λ entry, ∀ r, registration code σ entry = Some r → r.1 ≠ "") pre →
  registration code σ entry = Some ("", task) →
  addTasksFromObject code σ this object
  = ({| tasks := list_to_map (reverse (omap (registration code σ) pre)) ∪ tasks this |},
     Some (VError ("Task function must be a named function or " +:+
                   "an explicit task name must be passed in"))).
Proof.
  intros Hobj Hpre Hentry. unfold addTasksFromObject. rewrite Hobj. clear Hobj.
  revert this. induction Hpre as [|e pre He _ IH]; intros this.
  - cbn [app forEach_entry omap list_omap reverse]. rewrite add_entry_registration, Hentry.
    cbn. rewrite (left_id_L ∅ (∪)). by destruct this.
  - cbn [app forEach_entry omap list_omap]. rewrite add_entry_registration.
    destruct (registration code σ e) as [[name task']|] eqn:Hreg.
    + specialize (He _ eq_refl). apply String.eqb_neq in He. cbn in He.
      rewrite He, IH. cbn [tasks].
      by rewrite (list_to_map_reverse_cons (name, task')).
    + apply IH.
Qed.

Lemma props_of_insert (σ : gmap fref fn_props) f g p :
  props_of (<[f := p]> σ) g = if decide (f = g) then p else props_of σ g.
Proof.
  unfold props_of. case_decide as Hfg.
  - subst. by rewrite lookup_insert_eq.
  - by rewrite lookup_insert_ne.
Qed.

(** What [decorator(target)] leaves on the functions. *)
Lemma apply_decorator_props d target σ g :
  props_of (apply_decorator d target σ) g
  = if decide (target = g) then
      {| taskName_prop :=
           match dec_taskName d with
           | Some s => if truthy (VStr s) then Some s else taskName_prop (props_of σ g)
           | None => taskName_prop (props_of σ g)
           end;
         dependencies_prop :=
           match dec_dependencies d with
           | Some ds => Some ds
           | None => dependencies_prop (props_of σ g)
           end |}
    else props_of σ g.
Proof.
  unfold apply_decorator.
  destruct (dec_dependencies d) as [ds|], (dec_taskName d) as [s|];
    try destruct (truthy (VStr s)); rewrite ?props_of_insert;
    case_decide; subst; rewrite ?props_of_insert, ?decide_True by done;
    try done; by destruct (props_of σ g).
Qed.

(** X15: [TaskEngine.task] called with a function in the third place
    returns that function and writes on no other function.  The function's
    [dependencies] become the array passed in, if one is; its [taskName]
    becomes the name passed in, if it is not empty. *)
Theorem task_decorates_only_its_function taskName dependencies f σ :
  (∀ g, taskName ≠ TFun g) → (∀ g, dependencies ≠ TFun g) →
  ∃ σ',
    TaskEngine_task code taskName dependencies (TFun f) σ = (Decorated f, σ') ∧
    (∀ g, g ≠ f → props_of σ' g = props_of σ g) ∧
    dependencies_prop (props_of σ' f)
    = match taskName, dependencies with
      | TDeps ds, _ => Some ds
      | _, TDeps ds => Some ds
      | _, _ => dependencies_prop (props_of σ f)
      end ∧
    taskName_prop (props_of σ' f)
    = match taskName with
      | TName s => if String.eqb s "" then taskName_prop (props_of σ f) else Some s
      | _ => taskName_prop (props_of σ f)
      end.
Proof.
  intros Hname Hdeps.
  exists (TaskEngine_task code taskName dependencies (TFun f) σ).2.
  destruct taskName as [|s|ds|g]; [| | |by destruct (Hname g)];
    (destruct dependencies as [|s'|ds'|g]; [| | |by destruct (Hdeps g)]);
    cbn [TaskEngine_task fst snd];
    (split; [reflexivity|]);
    (split; [intros g Hg; rewrite apply_decorator_props; by rewrite decide_False|]);
    rewrite apply_decorator_props, decide_True by done;
    cbn; (split; [reflexivity|]); try reflexivity; by destruct (String.eqb s "").
Qed.


(** X17: [TaskEngine.task] and [addTasksFromObject] compose.  A function
    decorated with a name and dependencies and put in an object under any
    key is registered as [addTask] registers it with that name and those
    dependencies: the key is not used. *)
Theorem decorated_function_registers_under_its_name σ this f name deps key :
  name ≠ "" →
  ∃ σ',
    TaskEngine_task code (TName name) (TDeps deps) (TFun f) σ = (Decorated f, σ') ∧
    addTasksFromObject code σ' this (VObj [(key, VFun f)])
    = returned (addTask code this (VFun f) (ArgName name) deps) this ∧
    canRunTask (addTasksFromObject code σ' this (VObj [(key, VFun f)])).1 name = true.
Proof.
  intros Hname. eexists. split; [reflexivity|].
  assert (Hs : String.eqb name "" = false) by by apply String.eqb_neq.
  assert (Hadd : addTasksFromObject code
                   (apply_decorator {| dec_taskName := Some name; dec_dependencies := Some deps |}
                      f σ) this (VObj [(key, VFun f)])
                 = returned (addTask code this (VFun f) (ArgName name) deps) this).
  { unfold addTasksFromObject. cbn [entries forEach_entry add_entry].
    rewrite apply_decorator_props, decide_True by done.
    do 2 (cbn [dec_taskName dec_dependencies taskName_prop dependencies_prop truthy
                 default negb id]; rewrite ?Hs).
    reflexivity. }
  split; [exact Hadd|]. rewrite Hadd.
  rewrite addTask_function by (cbn; by rewrite Hs).
  cbn. rewrite Hs. apply bool_decide_eq_true. cbn. rewrite lookup_insert_eq. eauto.
Qed.

(** X16: the overloads of [TaskEngine.task].  A function in the first
    place is decorated with no dependencies and its own name, whatever
    follows it; a function in the second place is decorated with no
    dependencies; an array in the first place is the dependencies, with no
    name; without a function the call returns a decorator and writes
    nothing, and applying that decorator to a function is the call with the
    function in the third place. *)
Theorem task_overloads f σ :
  (∀ second third,
     TaskEngine_task code (TFun f) second third σ
     = TaskEngine_task code (TName (fname (code f))) (TDeps []) (TFun f) σ) ∧
  (∀ name third,
     TaskEngine_task code (TName name) (TFun f) third σ
     = TaskEngine_task code (TName name) (TDeps []) (TFun f) σ) ∧
  (∀ deps third,
     TaskEngine_task code (TDeps deps) (TFun f) third σ
     = TaskEngine_task code TAbsent (TDeps deps) (TFun f) σ) ∧
  (∀ taskName dependencies,
     (∀ g, taskName ≠ TFun g) → (∀ g, dependencies ≠ TFun g) →
     ∃ d, TaskEngine_task code taskName dependencies TAbsent σ = (Decorator d, σ) ∧
          (Decorated f, apply_decorator d f σ)
          = TaskEngine_task code taskName dependencies (TFun f) σ).
Proof.
  split; [|split; [|split]].
  - intros second third. reflexivity.
  - intros name third. reflexivity.
  - intros deps third. reflexivity.
  - intros taskName dependencies Hname Hdeps.
    destruct taskName as [|s|ds|g]; [| | |by destruct (Hname g)];
      (destruct dependencies as [|s'|ds'|g]; [| | |by destruct (Hdeps g)]);
      eexists; split; reflexivity.
Qed.

Lemma pretty_N_go_nonempty x s : s ≠ "" → pretty_N_go x s ≠ "".
Proof.
  revert s. induction (N.lt_wf_0 x) as [x _ IH]; intros s Hs.
  destruct (decide (x = 0)%N) as [->|Hx]; [by rewrite pretty_N_go_0|].
  rewrite pretty_N_go_step by lia. apply IH; [|done].
  apply N.div_lt; lia.
Qed.

Lemma pretty_nat_nonempty (i : nat) : pretty i ≠ "".
Proof.
  unfold pretty, pretty_nat, pretty, pretty_N. case_decide as Hi; [done|].
  rewrite pretty_N_go_step by lia. by apply pretty_N_go_nonempty.
Qed.

Lemma forEach_entry_by_key (key : nat → string) σ this fs :
  Inj (=) (=) key → (∀ i, key i ≠ "") →
  Forall (λ f, props_of σ f = no_props) fs →
  ∃ this',
    forEach_entry code σ this (imap (λ i v, (key i, v)) (VFun <$> fs)) = (this', None) ∧
    (∀ i f, fs !! i = Some f →
            tasks this' !! key i = Some {| run := f; dependencies := [] |}) ∧
    (∀ name, (∀ i, i < length fs → name ≠ key i) → tasks this' !! name = tasks this !! name).
Proof.
  intros Hinj Hkey Hfs. revert key this Hinj Hkey.
  induction Hfs as [|f fs Hf _ IH]; intros key this Hinj Hkey.
  - exists this. split; [done|]. split; [by intros i f [=]|done].
  - cbn [fmap list_fmap imap forEach_entry add_entry]. rewrite Hf.
    cbn [no_props taskName_prop dependencies_prop default].
    assert (Hk0 : String.eqb (key 0) "" = false) by apply String.eqb_neq, Hkey.
    rewrite addTask_function by (cbn; rewrite Hk0; apply Hkey).
    cbn [registered_name registered_dependencies]. rewrite Hk0.
    destruct (IH (key ∘ S) {| tasks := <[key 0 := {| run := f; dependencies := [] |}]> (tasks this) |})
      as (this' & Hrun & Hin & Hout).
    { intros i j Hij. apply Hinj in Hij. lia. }
    { intros i. apply Hkey. }
    exists this'. split; [exact Hrun|]. split.
    + intros [|i] g Hg.
      * injection Hg as <-. rewrite Hout; [cbn; by rewrite lookup_insert_eq|].
        intros i _ Heq. apply Hinj in Heq. lia.
      * by apply Hin.
    + intros name Hname. rewrite Hout.
      * cbn. rewrite lookup_insert_ne; [done|]. intros Heq. apply (Hname 0); [cbn; lia|done].
      * intros i Hi. apply (Hname (S i)). cbn. lia.
Qed.

(** X18: [t] with an array of functions that carry no properties registers
    each function under its index in the array, written in decimal,
    without dependencies, and writes no other entry. *)
Theorem t_array_registers_by_index σ this fs :
  Forall (λ f, props_of σ f = no_props) fs →
  ∃ this',
    t code σ this (VArr (VFun <$> fs)) NoMore = (this', None) ∧
    (∀ i f, fs !! i = Some f →
            tasks this' !! pretty i = Some {| run := f; dependencies := [] |}) ∧
    (∀ name, (∀ i, i < length fs → name ≠ pretty i) → tasks this' !! name = tasks this !! name).
Proof.
  intros Hfs. unfold t, addTasksFromObject. cbn [arguments_length Nat.eqb is_object andb entries].
  apply (forEach_entry_by_key pretty); [apply _|apply pretty_nat_nonempty|done].
Qed.

(** X19: [t] takes the path of [addTasksFromObject] only when it is called
    with one argument.  An object or an array passed with a name or with
    dependencies goes to [addTask], which refuses it, and nothing is
    registered. *)
Theorem t_object_with_more_arguments σ this task more :
  is_object task = true → more ≠ NoMore →
  t code σ this task more = (this, Some (VError "Task must be a function")).
Proof.
  intros Hobj Hmore. unfold t.
  replace (arguments_length more =? 1) with false by (by destruct more).
  cbn [andb]. rewrite addTask_not_function; [done|..]; intros; by destruct task.
Qed.

End Bulk_registration.

(** ** The order of the task names *)

Section Task_names.

Variable code : fref → js_function.

Lemma replace_property_fst {A} k (v : A) l : k ∈ l.*1 → (replace_property k v l).*1 = l.*1.
Proof.
  induction l as [|[k' v'] l IH]; intros Hin; [done|]. cbn [replace_property].
  destruct (String.eqb k' k) eqn:Hk.
  - apply String.eqb_eq in Hk. by subst.
  - cbn. f_equal. apply IH. apply String.eqb_neq in Hk.
    cbn in Hin. apply elem_of_cons in Hin as [->|Hin]; done.
Qed.

Lemma replace_property_map {A} k (v : A) l :
  k ∈ l.*1 →
  (list_to_map (replace_property k v l) : gmap string A) = <[k := v]> (list_to_map l).
Proof.
  induction l as [|[k' v'] l IH]; intros Hin; [by apply elem_of_nil in Hin|].
  cbn [replace_property]. destruct (String.eqb k' k) eqn:Hk.
  - apply String.eqb_eq in Hk. subst. cbn. by rewrite insert_insert_eq.
  - apply String.eqb_neq in Hk. cbn. rewrite IH.
    + by apply insert_insert_ne.
    + cbn in Hin. apply elem_of_cons in Hin as [->|Hin]; done.
Qed.

Lemma insert_index_perm {A} n k (v : A) l : insert_index n k v l ≡ₚ (k, v) :: l.
Proof.
  induction l as [|[k' v'] l IH]; [done|]. cbn [insert_index].
  destruct (array_index k') as [m|]; [|done].
  destruct (m <? n)%N; [|done]. rewrite IH. apply Permutation_swap.
Qed.

Lemma set_property_map {A} k (v : A) l :
  NoDup l.*1 →
  (list_to_map (set_property k v l) : gmap string A) = <[k := v]> (list_to_map l) ∧
  NoDup (set_property k v l).*1.
Proof.
  intros Hnd. unfold set_property. case_bool_decide as Hin.
  - split; [by apply replace_property_map|]. by rewrite replace_property_fst.
  - assert (Hnd' : NoDup ((k, v) :: l).*1) by (cbn; by constructor).
    destruct (array_index k) as [n|].
    + pose proof (insert_index_perm n k v l) as Hperm.
      assert (Hnd2 : NoDup (insert_index n k v l).*1) by (by rewrite Hperm).
      split; [|done]. by rewrite (list_to_map_proper _ _ Hnd2 Hperm).
    + assert (Hperm : l ++ [(k, v)] ≡ₚ (k, v) :: l) by (by rewrite Permutation_app_comm).
      assert (Hnd2 : NoDup (l ++ [(k, v)]).*1) by (by rewrite Hperm).
      split; [|done]. by rewrite (list_to_map_proper _ _ Hnd2 Hperm).
Qed.

(** One call of [addTask] on the two registries. *)
Lemma addTask_ordered_sim this task taskName dependencies :
  NoDup (getTaskNames this) →
  match addTask_ordered code this task taskName dependencies with
  | Normal this' =>
      addTask code (to_engine this) task taskName dependencies = Normal (to_engine this') ∧
      NoDup (getTaskNames this')
  | Abrupt e => addTask code (to_engine this) task taskName dependencies = Abrupt e
  end.
Proof.
  intros Hnd. unfold addTask_ordered, addTask.
  destruct (match taskName with ArgAbsent => _ | ArgName _ => _ | ArgDeps _ => _ end)
    as [[name deps]|e]; cbn [mbind js_result_bind]; [|done].
  destruct (if negb (truthy name) then _ else _) as [name'|e];
    cbn [mbind js_result_bind]; [|done].
  destruct task; try done. destruct (truthy name'); [|done].
  destruct (set_property_map (property_key name') {| run := f; dependencies := deps |}
              (ordered_tasks this) Hnd) as [Hmap Hnd'].
  split; [|exact Hnd']. unfold to_engine, engine_of. cbn [ordered_tasks tasks]. by rewrite Hmap.
Qed.

Lemma getTaskNames_canRunTask this name :
  name ∈ getTaskNames this ↔ canRunTask (to_engine this) name = true.
Proof.
  unfold canRunTask, to_engine, engine_of, getTaskNames. cbn [tasks].
  rewrite bool_decide_eq_true, <- elem_of_dom, dom_list_to_map_L, elem_of_list_to_set. done.
Qed.

Lemma addTasks_ordered_cons call calls this :
  addTasks_ordered code (call :: calls) this
  = (this ← addTask_ordered code this call.1.1 call.1.2 call.2;
     addTasks_ordered code calls this).
Proof.
  unfold addTasks_ordered. destruct call as [[task taskName] dependencies].
  cbn [foldl fst snd mbind js_result_bind].
  destruct (addTask_ordered code this task taskName dependencies) as [this1|e]; [done|].
  induction calls as [|[[? ?] ?] calls IH]; [done|]. cbn [foldl]. exact IH.
Qed.

(** X20: the registry with the order of its keys and the registry as a map
    go through a chain of [addTask] calls in step: both return or both
    throw the same error, and where they return the keys are without
    duplicates and [getTaskNames] lists exactly the names for which
    [canRunTask] holds. *)
Theorem addTasks_ordered_refines calls this :
  NoDup (getTaskNames this) →
  match addTasks_ordered code calls this with
  | Normal this' =>
      addTasks code calls (to_engine this) = Normal (to_engine this') ∧
      NoDup (getTaskNames this') ∧
      ∀ name, name ∈ getTaskNames this' ↔ canRunTask (to_engine this') name = true
  | Abrupt e => addTasks code calls (to_engine this) = Abrupt e
  end.
Proof.
  revert this. induction calls as [|[[task taskName] dependencies] calls IH]; intros this Hnd.
  - cbn. split; [done|]. split; [done|]. intros name. apply getTaskNames_canRunTask.
  - rewrite addTasks_ordered_cons, addTasks_cons. cbn [fst snd].
    pose proof (addTask_ordered_sim this task taskName dependencies Hnd) as Hstep.
    destruct (addTask_ordered code this task taskName dependencies) as [this1|e];
      cbn [mbind js_result_bind].
    + destruct Hstep as [-> Hnd1]. cbn [mbind js_result_bind]. by apply IH.
    + by rewrite Hstep.
Qed.

(** X21: [getTaskNames] after [addTask].  Registering under a name that is
    taken leaves the list of names as it was; a new name that is not an
    array index goes to the end of the list. *)
Theorem getTaskNames_registration_order this f taskName dependencies this' :
  addTask_ordered code this (VFun f) taskName dependencies = Normal this' →
  let name := registered_name code f taskName in
  (name ∈ getTaskNames this → getTaskNames this' = getTaskNames this) ∧
  (name ∉ getTaskNames this → array_index name = None →
   getTaskNames this' = getTaskNames this ++ [name]).
Proof.
  intros Hadd name.
  assert (Hthis' : this' = {| ordered_tasks :=
             set_property name
               {| run := f; dependencies := registered_dependencies taskName dependencies |}
               (ordered_tasks this) |} ∧ name ≠ "").
  { revert Hadd. unfold addTask_ordered, name.
    destruct taskName as [|s|ds]; cbn [mbind js_result_bind get_name truthy negb
                                        registered_name registered_dependencies].
    - destruct (String.eqb (fname (code f)) "") eqn:Hs; cbn [negb]; [done|].
      intros [= <-]. split; [done|]. by apply String.eqb_neq.
    - destruct (String.eqb s "") eqn:Hs; cbn [negb mbind js_result_bind get_name truthy].
      + destruct (String.eqb (fname (code f)) "") eqn:Hf; cbn [negb]; [done|].
        intros [= <-]. split; [done|]. by apply String.eqb_neq.
      + rewrite Hs. cbn [negb]. intros [= <-]. split; [done|]. by apply String.eqb_neq.
    - destruct (String.eqb (fname (code f)) "") eqn:Hs;
        cbn [negb mbind js_result_bind get_name truthy]; rewrite Hs; cbn [negb]; [done|].
      intros [= <-]. split; [done|]. by apply String.eqb_neq. }
  destruct Hthis' as [-> _]. unfold getTaskNames. cbn [ordered_tasks]. unfold set_property.
  split.
  - intros Hin. rewrite bool_decide_eq_true_2 by done. by apply replace_property_fst.
  - intros Hnotin Hidx. rewrite bool_decide_eq_false_2 by done. rewrite Hidx.
    by rewrite fmap_app.
Qed.

End Task_names.

(** ** The command line *)

Section Command_line.

Variable code : fref → js_function.

(** X22: the entry point of [cli.js] throws a [TypeError] for every command
    line, whatever the task file exports: [args([0] || '')] calls the array
    [args].  No option is read and no task is run. *)
Theorem cli_main_throws_before_any_task loadModule readOptionsFromCommandLine
    fuel tEngine argv :
  cli_main code loadModule readOptionsFromCommandLine fuel tEngine argv
  = Abrupt (VTypeError "args is not a function").
Proof. reflexivity. Qed.

End Command_line.

(** ** The general properties on the sample registries *)

Lemma addTask_writes_one_entry_witness :
  tasks list_engine !! "list" = Some {| run := 4; dependencies := [DepName "taskB"] |} ∧
  tasks list_engine !! "taskA" = tasks sample_engine !! "taskA" ∧
  canRunTask list_engine "taskD" = true.
Proof.
  destruct (addTask_writes_one_entry sample_code sample_engine (VFun 4)
              (ArgDeps [DepName "taskB"]) [] list_engine)
    as (f & Hf & Hrest); [vm_compute; reflexivity|].
  injection Hf as <-. cbn zeta in Hrest. destruct Hrest as (Hentry & _ & Hframe & Hmono).
  split; [exact Hentry|]. split; [by apply Hframe|]. apply Hmono. vm_compute; reflexivity.
Defined.

Lemma addTask_replaces_witness :
  addTask sample_code job_engine (VFun 1) (ArgName "job") [DepName "taskD"]
  = addTask sample_code sample_engine (VFun 1) (ArgName "job") [DepName "taskD"].
Proof.
  apply (addTask_replaces sample_code sample_engine 4 1 (ArgName "job") (ArgName "job") []);
    vm_compute; reflexivity.
Defined.

Lemma addTasks_registered_witness :
  addTasks sample_code sample_calls new_TaskEngine = Normal chain_engine ∧
  (canRunTask chain_engine "b" = true ↔
   canRunTask new_TaskEngine "b" = true ∨
   ∃ f taskName dependencies,
     (VFun f, taskName, dependencies) ∈ sample_calls ∧
     registered_name sample_code f taskName = "b").
Proof.
  assert (Hchain : addTasks sample_code sample_calls new_TaskEngine = Normal chain_engine)
    by (vm_compute; reflexivity).
  split; [exact Hchain|].
  exact (addTasks_registered sample_code sample_calls new_TaskEngine chain_engine Hchain "b").
Defined.

Lemma runTask_returns_on_acyclic_witness :
  is_Some (runTask sample_code (S (sample_rank "taskA")) sample_engine "taskA" hi).
Proof.
  apply (runTask_returns_on_acyclic sample_code sample_rank sample_engine).
  apply (bool_decide_unpack _). vm_compute. exact I.
Defined.

Lemma runTask_cycle_never_returns_witness :
  runTask sample_code 1000 loop_engine "pong" hi = None.
Proof.
  apply (runTask_cycle_never_returns sample_code {[ "ping"; "pong" ]} loop_engine).
  - intros name [->%elem_of_singleton | ->%elem_of_singleton]%elem_of_union.
    + exists {| run := 0; dependencies := [DepName "pong"] |}, (DepName "pong"), [].
      split; [vm_compute; reflexivity|]. split; [reflexivity|]. cbn. set_solver.
    + exists {| run := 1; dependencies := [DepName "ping"; DepName "taskB"] |},
             (DepName "ping"), [DepName "taskB"].
      split; [vm_compute; reflexivity|]. split; [reflexivity|]. cbn. set_solver.
  - set_solver.
Defined.

Lemma runTask_cases_witness :
  (∃ outs,
     Forall2 (resolves_to sample_code 2 sample_engine hi)
       [DepSpec "taskB" (Some age34); DepSpec "taskC" (Some davey)] outs ∧
     Fulfilled VUndefined
     = settle (fbody (sample_code 0) hi sample_engine (fold_left Array_concat outs.*2 [])) ∧
     sample_trace
     = EvEnter "taskA" hi ::
       concat outs.*1 ++
       [EvInvoke "taskA" hi sample_engine (fold_left Array_concat outs.*2 []);
        EvSettle "taskA" (Fulfilled VUndefined)]) ∨
  (∃ pre d post outs trd e,
     [DepSpec "taskB" (Some age34); DepSpec "taskC" (Some davey)] = pre ++ d :: post ∧
     Forall2 (resolves_to sample_code 2 sample_engine hi) pre outs ∧
     fails_with sample_code 2 sample_engine hi d trd e ∧
     Fulfilled VUndefined = Rejected e ∧
     sample_trace
     = EvEnter "taskA" hi :: concat outs.*1 ++ trd ++ [EvSettle "taskA" (Rejected e)]).
Proof.
  apply (runTask_cases sample_code 2 sample_engine "taskA"
           {| run := 0; dependencies :=
                [DepSpec "taskB" (Some age34); DepSpec "taskC" (Some davey)] |}
           hi sample_trace (Fulfilled VUndefined)); vm_compute; reflexivity.
Defined.

Lemma runTask_results_one_per_dependency_witness :
  runTask sample_code 3 sample_engine "taskA" hi
  = Some (EvEnter "taskA" hi ::
          concat [taskB_trace; taskC_trace] ++
          [EvInvoke "taskA" hi sample_engine [VStr "B"; VStr "C"];
           EvSettle "taskA" (Fulfilled VUndefined)],
          Fulfilled VUndefined) ∧
  length [VStr "B"; VStr "C"] = 2.
Proof.
  apply (runTask_results_one_per_dependency sample_code 2 sample_engine "taskA"
           {| run := 0; dependencies :=
                [DepSpec "taskB" (Some age34); DepSpec "taskC" (Some davey)] |}
           hi [(taskB_trace, VStr "B"); (taskC_trace, VStr "C")]).
  - vm_compute; reflexivity.
  - repeat constructor; vm_compute; reflexivity.
  - repeat constructor; discriminate.
Defined.

Lemma runTask_calls_registered_with_engine_witness :
  Forall (λ ev, match ev with
                | EvInvoke name _ engine _ =>
                    engine = sample_engine ∧ canRunTask sample_engine name = true
                | _ => True
                end) sample_trace.
Proof.
  apply (runTask_calls_registered_with_engine sample_code 3 sample_engine "taskA" hi
           sample_trace (Fulfilled VUndefined)).
  vm_compute; reflexivity.
Defined.

Lemma option_without_override_reaches_every_task_witness :
  Forall (λ ev, match ev with
                | EvEnter _ o | EvInvoke _ o _ _ =>
                    o !! key "message" I = hi !! key "message" I
                | EvSettle _ _ => True
                end) sample_trace.
Proof.
  apply (option_without_override_reaches_every_task sample_code (key "message" I) 3
           sample_engine
           "taskA" hi sample_trace (Fulfilled VUndefined)).
  - apply (bool_decide_unpack _). vm_compute. exact I.
  - vm_compute; reflexivity.
Defined.

Lemma runTaskWithoutDependencies_fulfils_witness :
  runTaskWithoutDependencies sample_code sample_engine "taskB" hi
  = Normal (Some ([EvInvoke "taskB" hi sample_engine []], Fulfilled (VStr "B"))) ∧
  (dependencies {| run := 1; dependencies := [] |} = [] →
   ∀ n, runTask sample_code (S n) sample_engine "taskB" hi
        = Some ([EvEnter "taskB" hi; EvInvoke "taskB" hi sample_engine [];
                 EvSettle "taskB" (Fulfilled (VStr "B"))], Fulfilled (VStr "B"))).
Proof.
  apply (runTaskWithoutDependencies_fulfils sample_code sample_engine "taskB"
           {| run := 1; dependencies := [] |} hi (VStr "B")); vm_compute; reflexivity.
Defined.

Lemma addTasksFromObject_registers_witness :
  addTasksFromObject sample_code sample_props sample_engine sample_object
  = ({| tasks :=
          list_to_map
            (reverse (omap (registration sample_code sample_props)
                        [("taskB", VFun 1); ("version", VNum 1); ("build", VFun 2)]))
          ∪ tasks sample_engine |}, None) ∧
  ∀ name,
    canRunTask (addTasksFromObject sample_code sample_props sample_engine sample_object).1
      name = true ↔
    canRunTask sample_engine name = true ∨
    name ∈ (omap (registration sample_code sample_props)
              [("taskB", VFun 1); ("version", VNum 1); ("build", VFun 2)]).*1.
Proof.
  apply (addTasksFromObject_registers sample_code sample_props sample_engine sample_object).
  - reflexivity.
  - repeat constructor; discriminate.
Defined.

Lemma addTasksFromObject_stops_at_nameless_witness :
  addTasksFromObject sample_code ∅ new_TaskEngine nameless_object
  = ({| tasks :=
          list_to_map (reverse (omap (registration sample_code ∅) [("taskB", VFun 1)]))
          ∪ tasks new_TaskEngine |},
     Some (VError ("Task function must be a named function or " +:+
                   "an explicit task name must be passed in"))).
Proof.
  apply (addTasksFromObject_stops_at_nameless sample_code ∅ new_TaskEngine nameless_object
           [("taskB", VFun 1)] ("", VFun 7) [("taskD", VFun 3)]
           {| run := 7; dependencies := [] |}).
  - reflexivity.
  - repeat constructor. intros r [= <-]. discriminate.
  - reflexivity.
Defined.

Lemma task_decorates_only_its_function_witness :
  ∃ σ',
    TaskEngine_task sample_code (TName "compile") (TDeps [DepName "taskB"]) (TFun 2) ∅
    = (Decorated 2, σ') ∧
    (∀ g, g ≠ 2 → props_of σ' g = props_of ∅ g) ∧
    dependencies_prop (props_of σ' 2) = Some [DepName "taskB"] ∧
    taskName_prop (props_of σ' 2) = Some "compile".
Proof.
  apply (task_decorates_only_its_function sample_code (TName "compile")
           (TDeps [DepName "taskB"]) 2 ∅); discriminate.
Defined.

Lemma decorated_function_registers_under_its_name_witness :
  ∃ σ',
    TaskEngine_task sample_code (TName "compile") (TDeps [DepName "taskB"]) (TFun 2) ∅
    = (Decorated 2, σ') ∧
    addTasksFromObject sample_code σ' sample_engine (VObj [("build", VFun 2)])
    = returned (addTask sample_code sample_engine (VFun 2) (ArgName "compile")
                  [DepName "taskB"]) sample_engine ∧
    canRunTask (addTasksFromObject sample_code σ' sample_engine (VObj [("build", VFun 2)])).1
      "compile" = true.
Proof.
  apply (decorated_function_registers_under_its_name sample_code ∅ sample_engine 2
           "compile" [DepName "taskB"] "build").
  discriminate.
Defined.

Lemma t_array_registers_by_index_witness :
  ∃ this',
    t sample_code ∅ sample_engine (VArr (VFun <$> [1; 2])) NoMore = (this', None) ∧
    (∀ i f, [1; 2] !! i = Some f →
            tasks this' !! pretty i = Some {| run := f; dependencies := [] |}) ∧
    (∀ name, (∀ i, i < length [1; 2] → name ≠ pretty i) →
             tasks this' !! name = tasks sample_engine !! name).
Proof.
  apply (t_array_registers_by_index sample_code ∅ sample_engine [1; 2]).
  repeat constructor.
Defined.

Lemma t_object_with_more_arguments_witness :
  t sample_code sample_props sample_engine sample_object (OneMore (ArgName "build"))
  = (sample_engine, Some (VError "Task must be a function")).
Proof.
  apply (t_object_with_more_arguments sample_code sample_props sample_engine sample_object
           (OneMore (ArgName "build"))); [reflexivity|discriminate].
Defined.

Lemma addTasks_ordered_refines_witness :
  match addTasks_ordered sample_code sample_calls ordered_sample with
  | Normal this' =>
      addTasks sample_code sample_calls (to_engine ordered_sample) = Normal (to_engine this') ∧
      NoDup (getTaskNames this') ∧
      ∀ name, name ∈ getTaskNames this' ↔ canRunTask (to_engine this') name = true
  | Abrupt e => addTasks sample_code sample_calls (to_engine ordered_sample) = Abrupt e
  end.
Proof.
  apply (addTasks_ordered_refines sample_code sample_calls ordered_sample).
  apply (bool_decide_unpack _). vm_compute. exact I.
Defined.

Lemma getTaskNames_registration_order_witness :
  ("taskD" ∈ getTaskNames ordered_sample →
   getTaskNames {| ordered_tasks :=
       ordered_tasks ordered_sample ++ [("taskD", {| run := 3; dependencies := [] |})] |}
   = getTaskNames ordered_sample) ∧
  ("taskD" ∉ getTaskNames ordered_sample → array_index "taskD" = None →
   getTaskNames {| ordered_tasks :=
       ordered_tasks ordered_sample ++ [("taskD", {| run := 3; dependencies := [] |})] |}
   = getTaskNames ordered_sample ++ ["taskD"]).
Proof.
  apply (getTaskNames_registration_order sample_code ordered_sample 3 ArgAbsent []).
  vm_compute; reflexivity.
Defined.

(** The test "should add a task": the names are listed in the order of
    registration. *)
Lemma getTaskNames_in_registration_order :
  ∃ this',
    addTasks_ordered sample_code
      [ (VFun 0, ArgAbsent, []);
        (VFun 1, ArgDeps [DepName "yep"], []);
        (VFun 0, ArgName "biff", []);
        (VFun 1, ArgName "whoa", [DepName "other"]) ]
      {| ordered_tasks := [] |} = Normal this' ∧
    getTaskNames this' = ["taskA"; "taskB"; "biff"; "whoa"] ∧
    tasks (to_engine this') !! "taskB" = Some {| run := 1; dependencies := [DepName "yep"] |}.
Proof. eexists. split; [reflexivity|]. split; vm_compute; reflexivity. Qed.

(** Names that are array indices are listed first, in ascending order; a
    name that is registered again keeps its place. *)
Lemma getTaskNames_index_names_first :
  ∃ this',
    addTasks_ordered sample_code
      [ (VFun 0, ArgName "b", []);
        (VFun 0, ArgName "10", []);
        (VFun 0, ArgName "2", []);
        (VFun 0, ArgName "01", []);
        (VFun 1, ArgName "b", []) ]
      {| ordered_tasks := [] |} = Normal this' ∧
    getTaskNames this' = ["2"; "10"; "b"; "01"].
Proof. eexists. split; [reflexivity|]. vm_compute; reflexivity. Qed.

(** The test "should add tasks": an object of decorated functions. *)
Lemma addTasksFromObject_decorated :
  addTasksFromObject sample_code decorated_props new_TaskEngine
    (VObj [("myTask1", VFun 0); ("myTask2", VFun 1); ("myTask3", VFun 2)])
  = (engine_of
       [ ("myTask1", {| run := 0; dependencies := [] |});
         ("taskB", {| run := 1; dependencies := [DepName "taskC"] |});
         ("taskC", {| run := 2; dependencies := [] |}) ], None).
Proof. vm_compute; reflexivity. Qed.

(** The test "should add tasks from an array", with functions that are
    not decorated: the names are the indices. *)
Lemma t_array_of_functions :
  t sample_code ∅ new_TaskEngine (VArr [VFun 1; VNum 7; VFun 2]) NoMore
  = (engine_of
       [ ("0", {| run := 1; dependencies := [] |});
         ("2", {| run := 2; dependencies := [] |}) ], None).
Proof. vm_compute; reflexivity. Qed.
